(** * Actor and critic networks of [ac_nets.py], over the real numbers

    This development embeds [src/ac_nets.py] (classes [NeuralNet],
    [CriticNetwork], [ActorNetwork]) in Rocq.

    - Tensors are a shape (a list of dimensions) together with their
      elements in row-major order, as torch stores them.
    - Elementwise operations follow torch's broadcasting rule: shapes are
      aligned on the right, and two dimensions are compatible when they are
      equal or one of them is 1.
    - Floating-point numbers are modelled by the reals [R].
    - Fallible torch calls return a [result]: [Error] carries the kind of
      exception torch would raise.
    - The trainers' mutable attributes form an explicit state record that
      each method takes and returns. *)

From Stdlib Require Import List Arith Lia ZArith Bool Reals Lra.
Import ListNotations.

Open Scope R_scope.
Local Open Scope bool_scope.

(** ** Results of fallible tensor operations *)

(** The exceptions torch raises in the code paths below:
    - [ShapeMismatch]: a [RuntimeError] about sizes (a linear layer fed the
      wrong feature size, shapes that do not broadcast) or a [ValueError]
      about the shape of a distribution's sample;
    - [IndexOutOfRange]: [F.one_hot] given a negative class or one that is
      not smaller than [num_classes], or a [Categorical] sample outside the
      support;
    - [InvalidDistribution]: a [Categorical] whose [probs] argument fails
      the simplex check. *)
Inductive error : Type :=
| ShapeMismatch
| IndexOutOfRange
| InvalidDistribution.

Inductive result (A : Type) : Type :=
| Ok (a : A)
| Error (e : error).
Arguments Ok {A} a.
Arguments Error {A} e.

Definition bind {A B} (r : result A) (f : A -> result B) : result B :=
  match r with
  | Ok a => f a
  | Error e => Error e
  end.

Notation "x <- r ;; f" := (bind r (fun x => f))
  (at level 61, r at next level, right associativity).

Definition is_ok {A} (r : result A) : bool :=
  match r with Ok _ => true | Error _ => false end.

(** ** Tensors *)

Record tensor (A : Type) : Type := mkT { shape : list nat; data : list A }.
Arguments mkT {A} shape data.
Arguments shape {A} t.
Arguments data {A} t.

(** The number of elements of a shape. *)
Definition numel (s : list nat) : nat := fold_right Nat.mul 1%nat s.

(** A tensor built by torch holds exactly as many elements as its shape. *)
Definition wf {A} (t : tensor A) : Prop := length (data t) = numel (shape t).

(** [chunks k n d]: the first [k] consecutive pieces of length [n]. *)
Fixpoint chunks {A} (k n : nat) (d : list A) : list (list A) :=
  match k with
  | O => []
  | S k' => firstn n d :: chunks k' n (skipn n d)
  end.

(** ** Broadcasting *)

(** Compatible dimensions, compared from the right. *)
Fixpoint bcast_rev (r1 r2 : list nat) : option (list nat) :=
  match r1, r2 with
  | [], r => Some r
  | r, [] => Some r
  | a :: r1', b :: r2' =>
      match bcast_rev r1' r2' with
      | None => None
      | Some r =>
          if Nat.eqb a b then Some (a :: r)
          else if Nat.eqb a 1 then Some (b :: r)
          else if Nat.eqb b 1 then Some (a :: r)
          else None
      end
  end.

Definition broadcast_shapes (s1 s2 : list nat) : option (list nat) :=
  match bcast_rev (rev s1) (rev s2) with
  | Some r => Some (rev r)
  | None => None
  end.

(** [expand_same s t d]: the elements [d] of shape [s] repeated along the
    dimensions where [s] has 1 and [t] does not; [s] and [t] have the same
    rank. *)
Fixpoint expand_same {A} (s t : list nat) (d : list A) : list A :=
  match s, t with
  | a :: s', b :: t' =>
      let cs := chunks a (numel s') d in
      if Nat.eqb a b then concat (map (expand_same s' t') cs)
      else concat (repeat (expand_same s' t' (hd [] cs)) b)
  | _, _ => d
  end.

(** Leading dimensions of size 1 are added until the ranks agree. *)
Definition expand {A} (s t : list nat) (d : list A) : list A :=
  expand_same (repeat 1%nat (length t - length s) ++ s) t d.

(** An elementwise binary operator ([a * b], [a - b], ...) with
    broadcasting. *)
Definition bin {A B C} (f : A -> B -> C) (x : tensor A) (y : tensor B)
  : result (tensor C) :=
  match broadcast_shapes (shape x) (shape y) with
  | None => Error ShapeMismatch
  | Some s =>
      Ok (mkT s (map (fun p => f (fst p) (snd p))
                     (combine (expand (shape x) s (data x))
                              (expand (shape y) s (data y)))))
  end.

Definition tmap {A B} (f : A -> B) (x : tensor A) : tensor B :=
  mkT (shape x) (map f (data x)).

(** ** Operations along the last dimension *)

Definition last_dim (s : list nat) : nat := last s 1%nat.
Definition batch_dims (s : list nat) : list nat := removelast s.

(** The rows of a tensor along its last dimension. *)
Definition rows {A} (t : tensor A) : list (list A) :=
  chunks (numel (batch_dims (shape t))) (last_dim (shape t)) (data t).

(** Replace every row by [f row], of length [n]. *)
Definition map_rows {A B} (n : nat) (f : list A -> list B) (t : tensor A)
  : tensor B :=
  mkT (batch_dims (shape t) ++ [n]) (concat (map f (rows t))).

Definition sum_list (l : list R) : R := fold_right Rplus 0 l.

(** [t.sum(-1, keepdims=True)] *)
Definition sum_last_keep (t : tensor R) : tensor R :=
  map_rows 1 (fun r => [sum_list r]) t.

(** [t.unsqueeze(-1)] *)
Definition unsqueeze_last {A} (t : tensor A) : tensor A :=
  mkT (shape t ++ [1%nat]) (data t).

(** [t.squeeze(-1)]: drops the last dimension when it is 1. *)
Definition squeeze_last {A} (t : tensor A) : tensor A :=
  match shape t with
  | [] => t
  | _ => if Nat.eqb (last_dim (shape t)) 1 then mkT (batch_dims (shape t)) (data t)
         else t
  end.

(** [t.mean()]; torch gives NaN for an empty tensor, where this model gives
    [0 / 0 = 0]. *)
Definition mean (l : list R) : R := sum_list l / INR (length l).

(** ** [NeuralNet] (lines 26-41) *)

(** [nn.Linear(lin_in, out)]: [lin_w] holds one row of weights per output
    and [lin_b] the biases. *)
Record Linear : Type := { lin_in : nat; lin_w : list (list R); lin_b : list R }.

Definition dot (w x : list R) : R :=
  sum_list (map (fun p => fst p * snd p) (combine w x)).

Definition lin_out (l : Linear) : nat := length (combine (lin_w l) (lin_b l)).

Definition lin_row (l : Linear) (x : list R) : list R :=
  map (fun wb => dot (fst wb) x + snd wb) (combine (lin_w l) (lin_b l)).

(** [l(x)]: torch refuses a 0-d input and an input whose last dimension is
    not [in_features]. *)
Definition apply_linear (l : Linear) (x : tensor R) : result (tensor R) :=
  match shape x with
  | [] => Error ShapeMismatch
  | _ => if Nat.eqb (last_dim (shape x)) (lin_in l)
         then Ok (map_rows (lin_out l) (lin_row l) x)
         else Error ShapeMismatch
  end.

(** [F.relu] *)
Definition relu (x : tensor R) : tensor R := tmap (fun v => Rmax 0 v) x.

Definition softmax_row (r : list R) : list R :=
  map (fun v => exp v / sum_list (map exp r)) r.

(** [F.softmax(x, -1)] *)
Definition softmax_last (x : tensor R) : tensor R :=
  map_rows (last_dim (shape x)) softmax_row x.

Record NeuralNet : Type := { l1 : Linear; l2 : Linear; l3 : Linear; b_actor : bool }.

(** [NeuralNet.forward] *)
Definition forward (net : NeuralNet) (s : tensor R) : result (tensor R) :=
  o1 <- apply_linear (l1 net) s ;;
  let out := relu o1 in
  o2 <- apply_linear (l2 net) out ;;
  let out := relu o2 in
  o3 <- apply_linear (l3 net) out ;;
  if b_actor net then Ok (softmax_last o3) else Ok o3.

(** ** [torch.distributions.Categorical] *)

Definition Rleb (x y : R) : bool := if Rle_dec x y then true else false.
Definition Rltb (x y : R) : bool := if Rlt_dec x y then true else false.

(** [constraints.simplex.check]: non-negative entries summing to 1 up to
    [1e-6]. *)
Definition simplex_row (r : list R) : bool :=
  forallb (Rleb 0) r && Rltb (Rabs (sum_list r - 1)) (/ 1000000).

(** A categorical distribution keeps its normalised probabilities. *)
Record categorical : Type := { cat_probs : tensor R }.

Definition num_events (d : categorical) : nat := last_dim (shape (cat_probs d)).
Definition cat_batch_shape (d : categorical) : list nat :=
  batch_dims (shape (cat_probs d)).

(** [Categorical(probs=probs)] with argument validation (on by default):
    [probs] is divided by its row sums, then the normalised [probs] must
    pass the simplex check. *)
Definition Categorical (probs : tensor R) : result categorical :=
  match shape probs with
  | [] => Error InvalidDistribution
  | _ =>
      let p := map_rows (last_dim (shape probs))
                 (fun r => map (fun v => v / sum_list r) r) probs in
      if forallb simplex_row (rows p) then Ok {| cat_probs := p |}
      else Error InvalidDistribution
  end.

(** [torch.finfo(torch.float32).eps], the [eps] of [clamp_probs]: 2^-23. *)
Definition finfo_eps : R := / 8388608.

(** [torch.distributions.utils.clamp_probs]:
    [probs.clamp(min=eps, max=1 - eps)]. *)
Definition clamp_probs (p : R) : R := Rmin (Rmax p finfo_eps) (1 - finfo_eps).

(** [dist.logits], computed by [probs_to_logits(probs)]: the logarithms of
    the clamped probabilities. *)
Definition cat_logits (d : categorical) : tensor R :=
  tmap (fun v => ln (clamp_probs v)) (cat_probs d).

(** [Distribution._validate_sample] for a categorical: the sample's shape
    must broadcast against the batch shape, and every value must be an
    integer of [[0, num_events - 1]]. *)
Definition validate_sample (d : categorical) (v : tensor Z) : result unit :=
  match bcast_rev (rev (shape v)) (rev (cat_batch_shape d)) with
  | None => Error ShapeMismatch
  | Some _ =>
      if forallb (fun a => (0 <=? a)%Z && (a <=? Z.of_nat (num_events d) - 1)%Z)
           (data v)
      then Ok tt else Error IndexOutOfRange
  end.

(** [dist.log_prob(value)]: validation, then [value.unsqueeze(-1)] and the
    logits are broadcast together and the logit at each value is gathered. *)
Definition log_prob (d : categorical) (v : tensor Z) : result (tensor R) :=
  _ <- validate_sample d v ;;
  let lg := cat_logits d in
  match broadcast_shapes (shape v ++ [1%nat]) (shape lg) with
  | None => Error ShapeMismatch
  | Some s =>
      let s' := batch_dims s in
      let n := last_dim (shape lg) in
      let vs := expand (shape v) s' (data v) in
      let ls := chunks (numel s') n (expand (shape lg) (s' ++ [n]) (data lg)) in
      Ok (mkT s' (map (fun p => nth (Z.to_nat (fst p)) (snd p) 0)
                      (combine vs ls)))
  end.

(** [dist.entropy()]: minus the row sums of [logits * probs].  torch's
    [logits] are the logarithms of the clamped probabilities (see
    [cat_logits]); here each term is [log p * p] of the probability itself,
    which differs from torch's term by less than [2e-7]. *)
Definition entropy (d : categorical) : tensor R :=
  mkT (cat_batch_shape d)
      (map (fun r => - sum_list (map (fun v => ln v * v) r)) (rows (cat_probs d))).

(** [dist.sample()]: one index per row, of shape [batch_shape].  [draw]
    stands for the random choice made by [torch.multinomial] on a row. *)
Definition cat_sample (draw : list R -> Z) (d : categorical) : tensor Z :=
  mkT (cat_batch_shape d) (map draw (rows (cat_probs d))).

(** ** The objectives of the two [batch_update] methods *)

(** The [act] argument with the [action_distribution] flag: [Indices] when
    the flag is false (an integer tensor of action indices, N_S x N_E x 1),
    [Distributions] when it is true (N_S x N_E x N_A). *)
Inductive actions : Type :=
| Indices (a : tensor Z)
| Distributions (a : tensor R).

(** One call's arguments: [obs], [act] and [target] (critic) or [adv]
    (actor). *)
Record batch : Type := { obs : tensor R; act : actions; target : tensor R }.

Definition one_hot_row (a : Z) (n : nat) : list R :=
  map (fun j => if Z.eqb (Z.of_nat j) a then 1 else 0) (seq 0 n).

(** [F.one_hot(t, num_classes=n).float()] *)
Definition one_hot (t : tensor Z) (n : nat) : result (tensor R) :=
  if forallb (fun a => (0 <=? a)%Z) (data t) then
    if forallb (fun a => (a <? Z.of_nat n)%Z) (data t) then
      Ok (mkT (shape t ++ [n]) (concat (map (fun a => one_hot_row a n) (data t))))
    else Error IndexOutOfRange
  else Error IndexOutOfRange.

(** [nn.MSELoss()(input, target)]: the mean of the squared differences,
    after broadcasting (torch only warns when the shapes differ). *)
Definition mse_loss (input tgt : tensor R) : result R :=
  d <- bin (fun a b => (a - b) ^ 2) input tgt ;;
  Ok (mean (data d)).

(** Lines 72-76 of [CriticNetwork.batch_update]: the selection weights
    [q_sel] and [dot_prd = (Q*q_sel).sum(-1, keepdims=True)]. *)
Definition q_sel (num_outs : nat) (a : actions) : result (tensor R) :=
  match a with
  | Indices t => one_hot (squeeze_last t) num_outs
  | Distributions t => Ok t
  end.

Definition critic_dot (num_outs : nat) (Q : tensor R) (a : actions)
  : result (tensor R) :=
  sel <- q_sel num_outs a ;;
  prd <- bin Rmult Q sel ;;
  Ok (sum_last_keep prd).

(** Lines 71-77 of [CriticNetwork.batch_update]: the loss. *)
Definition critic_objective (num_outs : nat) (net : NeuralNet) (b : batch)
  : result R :=
  Q <- forward net (obs b) ;;
  dot_prd <- critic_dot num_outs Q (act b) ;;
  mse_loss (target b) dot_prd.

(** Lines 141-146 of [ActorNetwork.batch_update]: [pg_loss]. *)
Definition pg_loss (dist : categorical) (a : actions) (adv : tensor R)
  : result (tensor R) :=
  match a with
  | Distributions _ => Ok (tmap Ropp adv)
  | Indices t =>
      lp <- log_prob dist (squeeze_last t) ;;
      let neglogp := tmap Ropp (unsqueeze_last lp) in
      bin Rmult adv neglogp
  end.

(** Lines 140-148 of [ActorNetwork.batch_update]: the loss. *)
Definition actor_objective (beta : R) (net : NeuralNet) (b : batch) : result R :=
  dist <- (probs <- forward net (obs b) ;; Categorical probs) ;;
  pg <- pg_loss dist (act b) (target b) ;;
  let ent := unsqueeze_last (entropy dist) in
  l <- bin Rminus pg (tmap (Rmult beta) ent) ;;
  Ok (mean (data l)).

(** ** Trainer state and methods *)

(** [np.inf] or a float: the running diagnostic [critic_loss] /
    [actor_loss]. *)
Inductive diag : Type := PosInf | Fin (r : R).

(** The bounded history [self.losses]: append, then drop the oldest entry
    when more than 20 are kept (lines 100-102 and 170-172). *)
Definition record_loss (h : list R) (l : R) : list R :=
  let h' := h ++ [l] in
  if Nat.ltb 20 (length h') then tl h' else h'.

Section Trainer.

(** Gradients and Adam's internal state are left abstract: [backward]
    gives the gradients of the loss of a batch ([loss.backward()]) and
    [adam_step] is [self.optimizer.step()]. *)
Variables G O : Type.
Variable backward : NeuralNet -> batch -> G.
Variable adam_step : O -> NeuralNet -> G -> NeuralNet * O.

(** The attributes of [CriticNetwork] / [ActorNetwork] that change:
    the network's weights, the parameters' [.grad], the optimizer state,
    [self.losses] and [self.critic_loss] / [self.actor_loss]. *)
Record trainer : Type := {
  net : NeuralNet;
  grads : option G;
  opt_state : O;
  losses : list R;
  running_loss : diag }.

(** The state set by [__init__] (lines 48-59 and 107-118). *)
Definition init_trainer (n : NeuralNet) (o : O) : trainer :=
  {| net := n; grads := None; opt_state := o; losses := []; running_loss := PosInf |}.

(** [self.optimizer.zero_grad()]: gradients are reset to [None]. *)
Definition zero_grad (st : trainer) : trainer :=
  {| net := net st; grads := None; opt_state := opt_state st;
     losses := losses st; running_loss := running_loss st |}.

(** The body shared by [CriticNetwork.batch_update] and
    [ActorNetwork.batch_update]; they differ only in [objective]. *)
Definition batch_update (objective : NeuralNet -> batch -> result R)
  (st : trainer) (b : batch) : result unit * trainer :=
  let st := zero_grad st in
  match objective (net st) b with
  | Error e => (Error e, st)
  | Ok loss =>
      let g := backward (net st) b in
      let (w, o) := adam_step (opt_state st) (net st) g in
      let h := record_loss (losses st) loss in
      (Ok tt, {| net := w; grads := Some g; opt_state := o; losses := h;
                 running_loss := Fin (mean h) |})
  end.

Definition critic_batch_update (num_outs : nat) := batch_update (critic_objective num_outs).
Definition actor_batch_update (beta : R) := batch_update (actor_objective beta).

(** [CriticNetwork.run_main] and [ActorNetwork.action_distribution]: with
    or without [torch.no_grad()], one forward pass; no attribute of the
    trainer is assigned. *)
Definition run_main (st : trainer) (o : tensor R) (grad : bool)
  : result (tensor R) * trainer :=
  if grad then (forward (net st) o, st) else (forward (net st) o, st).

Definition action_distribution (st : trainer) (o : tensor R) (grad : bool)
  : result (tensor R) * trainer :=
  if grad then (forward (net st) o, st) else (forward (net st) o, st).

(** [ActorNetwork.sample_action]; [draw] is the random choice of an index
    for one row of probabilities. *)
Definition sample_action (draw : list R -> Z) (st : trainer) (o : tensor R)
  (grad : bool) : result (tensor Z) * trainer :=
  let probs := forward (net st) o in
  (p <- probs ;; dist <- Categorical p ;; Ok (cat_sample draw dist), st).

End Trainer.

Arguments net {G O} _.
Arguments grads {G O} _.
Arguments opt_state {G O} _.
Arguments losses {G O} _.
Arguments running_loss {G O} _.
Arguments init_trainer {G O} n o.
Arguments zero_grad {G O} st.
Arguments batch_update {G O} backward adam_step objective st b.
Arguments critic_batch_update {G O} backward adam_step num_outs _ _.
Arguments actor_batch_update {G O} backward adam_step beta _ _.
Arguments run_main {G O} st o grad.
Arguments action_distribution {G O} st o grad.
Arguments sample_action {G O} draw st o grad.

(** ** Sequences of calls and concrete networks *)

(** A network whose weights are all zero, with the layer sizes that
    [NeuralNet.__init__] gives it. *)
Definition hidden_size : nat := 64.

Definition zero_linear (i o : nat) : Linear :=
  {| lin_in := i; lin_w := repeat (repeat 0 i) o; lin_b := repeat 0 o |}.

Definition zero_net (state_dim action_dim : nat) (actor : bool) : NeuralNet :=
  {| l1 := zero_linear state_dim hidden_size;
     l2 := zero_linear hidden_size hidden_size;
     l3 := zero_linear hidden_size action_dim;
     b_actor := actor |}.

(** The values of the successful results of a list. *)
Fixpoint ok_values {A} (rs : list (result A)) : list A :=
  match rs with
  | [] => []
  | Ok a :: rs' => a :: ok_values rs'
  | Error _ :: rs' => ok_values rs'
  end.

(** The last [n] elements of a list. *)
Definition lastn {A} (n : nat) (l : list A) : list A := skipn (length l - n) l.

Section Runs.
Variables G O : Type.
Variable backward : NeuralNet -> batch -> G.
Variable adam_step : O -> NeuralNet -> G -> NeuralNet * O.

(** A caller's sequence of [batch_update] calls: the final state, and for
    each call the loss the call computed, or its error. *)
Fixpoint run_updates (objective : NeuralNet -> batch -> result R)
  (st : trainer G O) (bs : list batch) : trainer G O * list (result R) :=
  match bs with
  | [] => (st, [])
  | b :: bs' =>
      let r := objective (net st) b in
      let st' := snd (batch_update backward adam_step objective st b) in
      let (st'', rs) := run_updates objective st' bs' in
      (st'', r :: rs)
  end.

End Runs.

Arguments run_updates {G O} backward adam_step objective st bs.

(** The Shannon entropy [- sum p log p] of a distribution. *)
Definition shannon_entropy (p : list R) : R := - sum_list (map (fun v => v * ln v) p).

(** The actor's loss with action indices as the specification words it: the
    mean over the examples of the advantage times the negative
    log-probability of the taken action, minus [beta] times the entropy of
    the example's distribution.  [P] holds the policy's rows, [a] the
    actions, [adv] the advantages. *)
Definition spec_actor_index_loss (beta : R) (P : tensor R) (a : tensor Z) (adv : tensor R) : R :=
  mean (map (fun p => fst p * - ln (nth (Z.to_nat (snd (snd p))) (fst (snd p)) 0)
                      - beta * shannon_entropy (fst (snd p)))
            (combine (data adv) (combine (rows P) (data a)))).

(** ** The broadcasts of the two updates *)

(** Whether the critic's shapes broadcast at each elementwise step of lines
    75-76: [Q * q_sel] (of shape [s]), then [nn.MSELoss] of the targets
    against [dot_prd], of shape [s] with its last dimension summed to 1. *)
Definition critic_shapes_broadcast (sQ ssel starget : list nat) : bool :=
  match broadcast_shapes sQ ssel with
  | None => false
  | Some s =>
      match broadcast_shapes starget (batch_dims s ++ [1%nat]) with
      | Some _ => true
      | None => false
      end
  end.

(** Whether the actor's shapes broadcast at each elementwise step of lines
    143-147 with action indices: the squeezed actions against the
    distribution's batch shape ([log_prob], giving [neglogp] of shape
    [s ++ [1]]), [adv * neglogp], then [pg_loss - beta * entropy] with the
    entropy of shape [batch ++ [1]]. *)
Definition actor_shapes_broadcast (sact sbatch sadv : list nat) : bool :=
  match broadcast_shapes sact sbatch with
  | None => false
  | Some s =>
      match broadcast_shapes sadv (s ++ [1%nat]) with
      | None => false
      | Some s2 =>
          match broadcast_shapes s2 (sbatch ++ [1%nat]) with
          | Some _ => true
          | None => false
          end
      end
  end.

(** ** Construction: [NeuralNet.__init__] and the trainers' [__init__] *)

(** [nn.Linear(i, o)]: a weight of [o] rows of [i] entries and a bias of
    [o] entries.  torch draws their initial values at random; [w] and [b0]
    stand for those draws. *)
Definition nn_Linear (i o : nat) (w : nat -> nat -> R) (b0 : nat -> R) : Linear :=
  {| lin_in := i; lin_w := map (fun r => map (w r) (seq 0 i)) (seq 0 o);
     lin_b := map b0 (seq 0 o) |}.

(** The random initial values of the three layers. *)
Record init_draws : Type := {
  dw1 : nat -> nat -> R; db1 : nat -> R;
  dw2 : nat -> nat -> R; db2 : nat -> R;
  dw3 : nat -> nat -> R; db3 : nat -> R }.

(** [NeuralNet(state_dim, action_dim, b_actor)] (lines 27-32). *)
Definition NeuralNet_init (state_dim action_dim : nat) (actor : bool) (d : init_draws)
  : NeuralNet :=
  {| l1 := nn_Linear state_dim hidden_size (dw1 d) (db1 d);
     l2 := nn_Linear hidden_size hidden_size (dw2 d) (db2 d);
     l3 := nn_Linear hidden_size action_dim (dw3 d) (db3 d);
     b_actor := actor |}.

(** [CriticNetwork(name, n_features, critic_actions, lr)] (lines 48-59): a
    value-mode network; [num_outs] is [critic_actions], passed to
    [critic_batch_update]; [o] is the fresh state of [Adam]. *)
Definition CriticNetwork_init {G O : Type} (n_features critic_actions : nat)
  (d : init_draws) (o : O) : trainer G O :=
  init_trainer (NeuralNet_init n_features critic_actions false d) o.

(** [ActorNetwork(name, n_features, actor_actions, lr, beta)] (lines
    107-118): a policy-mode network; [beta] is passed to
    [actor_batch_update]. *)
Definition ActorNetwork_init {G O : Type} (n_features actor_actions : nat)
  (d : init_draws) (o : O) : trainer G O :=
  init_trainer (NeuralNet_init n_features actor_actions true d) o.

(** Initial values all zero, for concrete instances. *)
Definition zero_draws : init_draws :=
  {| dw1 := fun _ _ => 0; db1 := fun _ => 0; dw2 := fun _ _ => 0; db2 := fun _ => 0;
     dw3 := fun _ _ => 0; db3 := fun _ => 0 |}.

(** * Lemmas on the tensor model *)

Section ListFacts.
Context {A : Type}.

Lemma chunks_length (k n : nat) (d : list A) : length (chunks k n d) = k.
Proof. revert d; induction k; intros d; simpl; auto. Qed.

Lemma chunks_concat (n : nat) (ls : list (list A)) :
  Forall (fun l => length l = n) ls -> chunks (length ls) n (concat ls) = ls.
Proof.
  induction 1 as [|l ls Hl _ IH]; simpl; auto.
  rewrite <- Hl, firstn_app, skipn_app, Nat.sub_diag, firstn_all, skipn_all;
  simpl. rewrite app_nil_r, Hl. f_equal; exact IH.
Qed.

Lemma concat_chunks (k n : nat) (d : list A) :
  length d = (k * n)%nat -> concat (chunks k n d) = d.
Proof.
  revert d; induction k as [|k IH]; intros d Hd; simpl.
  - destruct d; simpl in *; auto; lia.
  - rewrite IH; [apply firstn_skipn|]. rewrite length_skipn; lia.
Qed.

Lemma chunks_lengths (k n : nat) (d : list A) :
  length d = (k * n)%nat -> Forall (fun c => length c = n) (chunks k n d).
Proof.
  revert d; induction k as [|k IH]; intros d Hd; simpl; constructor.
  - rewrite length_firstn; lia.
  - apply IH. rewrite length_skipn; lia.
Qed.

Lemma length_concat_const (n : nat) (ls : list (list A)) :
  Forall (fun l => length l = n) ls -> length (concat ls) = (length ls * n)%nat.
Proof.
  induction 1; simpl; auto. rewrite length_app; lia.
Qed.

Lemma numel_app_last (s : list nat) (n : nat) : numel (s ++ [n]) = (numel s * n)%nat.
Proof. induction s; simpl; lia. Qed.

Lemma expand_same_id (s : list nat) (d : list A) :
  length d = numel s -> expand_same s s d = d.
Proof.
  revert d; induction s as [|a s IH]; intros d Hd; simpl; auto.
  rewrite Nat.eqb_refl.
  assert (Hc : Forall (fun c => length c = numel s) (chunks a (numel s) d))
    by (apply chunks_lengths; simpl in Hd; lia).
  rewrite map_ext_Forall with (g := fun c => c).
  - rewrite map_id. apply concat_chunks. simpl in Hd; lia.
  - eapply Forall_impl; [|exact Hc]. intros c Hlen. apply IH; auto.
Qed.

Lemma expand_id (s : list nat) (d : list A) :
  length d = numel s -> expand s s d = d.
Proof.
  intros H. unfold expand. rewrite Nat.sub_diag. apply expand_same_id; auto.
Qed.

End ListFacts.

Lemma bcast_rev_refl (r : list nat) : bcast_rev r r = Some r.
Proof.
  induction r as [|a r IH]; simpl; auto. rewrite IH, Nat.eqb_refl; auto.
Qed.

Lemma broadcast_shapes_refl (s : list nat) : broadcast_shapes s s = Some s.
Proof.
  unfold broadcast_shapes. rewrite bcast_rev_refl, rev_involutive; auto.
Qed.

Lemma bin_same {A B C} (f : A -> B -> C) (x : tensor A) (y : tensor B) :
  shape x = shape y -> wf x -> wf y ->
  bin f x y = Ok (mkT (shape x) (map (fun p => f (fst p) (snd p))
                                       (combine (data x) (data y)))).
Proof.
  unfold wf, bin; intros Hs Hx Hy. rewrite Hs, broadcast_shapes_refl.
  rewrite !expand_id by congruence. auto.
Qed.

Lemma batch_dims_app (s : list nat) (n : nat) : batch_dims (s ++ [n]) = s.
Proof. apply removelast_last. Qed.

Lemma last_dim_app (s : list nat) (n : nat) : last_dim (s ++ [n]) = n.
Proof. apply last_last. Qed.

Lemma rows_map_rows {A B} (n : nat) (f : list A -> list B) (t : tensor A) :
  Forall (fun r => length (f r) = n) (rows t) ->
  rows (map_rows n f t) = map f (rows t).
Proof.
  intros H. unfold rows at 1, map_rows; simpl.
  rewrite batch_dims_app, last_dim_app.
  replace (numel (batch_dims (shape t))) with (length (map f (rows t))).
  - apply chunks_concat. apply Forall_map; auto.
  - rewrite length_map. apply chunks_length.
Qed.

Lemma wf_map_rows {A B} (n : nat) (f : list A -> list B) (t : tensor A) :
  Forall (fun r => length (f r) = n) (rows t) -> wf (map_rows n f t).
Proof.
  intros H. unfold wf, map_rows; simpl.
  rewrite numel_app_last, (length_concat_const n).
  - rewrite length_map. unfold rows. rewrite chunks_length; auto.
  - apply Forall_map; auto.
Qed.

(** ** The forward pass *)

Lemma sum_list_app (a b : list R) : sum_list (a ++ b) = sum_list a + sum_list b.
Proof. induction a; simpl; [ring|rewrite IHa; ring]. Qed.

Lemma sum_list_map_div (f : R -> R) (c : R) (r : list R) :
  sum_list (map (fun v => f v / c) r) = sum_list (map f r) / c.
Proof. induction r; simpl; unfold Rdiv in *; [ring|rewrite IHr; ring]. Qed.

Lemma sum_exp_pos (r : list R) : r <> [] -> 0 < sum_list (map exp r).
Proof.
  induction r as [|v r IH]; intros H; [congruence|simpl].
  destruct r as [|w r].
  - simpl. pose proof (exp_pos v). lra.
  - pose proof (exp_pos v). assert (0 < sum_list (map exp (w :: r))) by (apply IH; discriminate).
    lra.
Qed.

Lemma softmax_row_length (r : list R) : length (softmax_row r) = length r.
Proof. apply length_map. Qed.

Lemma softmax_row_distribution (r : list R) :
  r <> [] -> Forall (Rle 0) (softmax_row r) /\ sum_list (softmax_row r) = 1.
Proof.
  intros H. pose proof (sum_exp_pos r H) as Hs. split.
  - apply Forall_forall. intros x Hx. unfold softmax_row in Hx.
    apply in_map_iff in Hx. destruct Hx as [v [<- _]].
    apply Rlt_le, Rdiv_lt_0_compat; [apply exp_pos | exact Hs].
  - unfold softmax_row. rewrite sum_list_map_div. field. lra.
Qed.

Lemma lin_row_length (l : Linear) (x : list R) : length (lin_row l x) = lin_out l.
Proof. unfold lin_row, lin_out. apply length_map. Qed.

Lemma apply_linear_ok (l : Linear) (x y : tensor R) :
  apply_linear l x = Ok y ->
  y = map_rows (lin_out l) (lin_row l) x /\ last_dim (shape x) = lin_in l.
Proof.
  unfold apply_linear. destruct (shape x) eqn:Hs; [discriminate|].
  destruct (Nat.eqb_spec (last_dim (n :: l0)) (lin_in l)); [|discriminate].
  intros H; inversion H; subst; split; auto.
Qed.

Lemma apply_linear_rows (l : Linear) (x y : tensor R) :
  apply_linear l x = Ok y ->
  rows y = map (lin_row l) (rows x) /\ wf y /\
  shape y = batch_dims (shape x) ++ [lin_out l].
Proof.
  intros H. apply apply_linear_ok in H. destruct H as [-> _].
  assert (Hl : Forall (fun r => length (lin_row l r) = lin_out l) (rows x))
    by (apply Forall_forall; intros; apply lin_row_length).
  split; [apply rows_map_rows; auto|]. split; [apply wf_map_rows; auto|]. auto.
Qed.

(** The rows of the final layer's raw scores, and those of its softmax. *)
Lemma raw_scores_rows (l : Linear) (x o3 : tensor R) :
  apply_linear l x = Ok o3 ->
  Forall (fun r => length r = lin_out l) (rows o3) /\ wf o3 /\
  last_dim (shape o3) = lin_out l.
Proof.
  intros H. destruct (apply_linear_rows _ _ _ H) as [Hr [Hw Hs]].
  split; [|split; auto].
  - rewrite Hr. apply Forall_map, Forall_forall. intros; apply lin_row_length.
  - rewrite Hs. apply last_dim_app.
Qed.

Lemma rows_softmax_last (x : tensor R) :
  Forall (fun r => length r = last_dim (shape x)) (rows x) ->
  rows (softmax_last x) = map softmax_row (rows x).
Proof.
  intros H. apply rows_map_rows. eapply Forall_impl; [|exact H].
  intros r Hr. rewrite softmax_row_length; auto.
Qed.

(** ** Elementwise products of rows, one-hot selection *)

Lemma combine_concat {A B} (L1 : list (list A)) (L2 : list (list B)) :
  Forall2 (fun x y => length x = length y) L1 L2 ->
  combine (concat L1) (concat L2) = concat (map (fun p => combine (fst p) (snd p)) (combine L1 L2)).
Proof.
  induction 1 as [|x y L1 L2 Hxy _ IH]; simpl; auto.
  rewrite <- IH. revert y Hxy. induction x as [|a x IHx]; intros [|b y] Hxy;
    simpl in *; try discriminate; auto.
  rewrite IHx; auto.
Qed.

Lemma map_concat {A B} (f : A -> B) (ls : list (list A)) :
  map f (concat ls) = concat (map (map f) ls).
Proof. induction ls; simpl; auto. rewrite map_app, IHls; auto. Qed.

Lemma Forall2_same_length {A B} (n : nat) (L1 : list (list A)) (L2 : list (list B)) :
  length L1 = length L2 -> Forall (fun l => length l = n) L1 ->
  Forall (fun l => length l = n) L2 -> Forall2 (fun x y => length x = length y) L1 L2.
Proof.
  revert L2; induction L1 as [|x L1 IH]; intros [|y L2] Hl H1 H2; simpl in *;
    try discriminate; constructor; inversion H1; inversion H2; subst; auto.
Qed.

(** Rows of an elementwise operation on two tensors of the same rows. *)
Lemma chunks_zip {A B C} (f : A -> B -> C) (n : nat)
  (L1 : list (list A)) (L2 : list (list B)) :
  length L1 = length L2 -> Forall (fun l => length l = n) L1 ->
  Forall (fun l => length l = n) L2 ->
  chunks (length L1) n (map (fun p => f (fst p) (snd p)) (combine (concat L1) (concat L2)))
  = map (fun p => map (fun q => f (fst q) (snd q)) (combine (fst p) (snd p)))
        (combine L1 L2).
Proof.
  intros Hl H1 H2.
  rewrite combine_concat by (eapply Forall2_same_length; eauto).
  rewrite map_concat, map_map.
  replace (length L1) with
    (length (map (fun p => map (fun q => f (fst q) (snd q)) (combine (fst p) (snd p)))
                 (combine L1 L2)))
    by (rewrite length_map, length_combine; lia).
  apply chunks_concat. apply Forall_map, Forall_forall.
  intros [x y] Hin. simpl. rewrite length_map, length_combine.
  apply in_combine_l in Hin as Hx. apply in_combine_r in Hin as Hy.
  rewrite Forall_forall in H1, H2. rewrite (H1 x Hx), (H2 y Hy). lia.
Qed.

Lemma map_combine_map_r {A B C D} (g : A * C -> D) (h : B -> C) (xs : list A) (ys : list B) :
  map g (combine xs (map h ys)) = map (fun p => g (fst p, h (snd p))) (combine xs ys).
Proof.
  revert ys; induction xs; intros [|y ys]; simpl; auto. rewrite IHxs; auto.
Qed.

Lemma one_hot_row_length (i : Z) (n : nat) : length (one_hot_row i n) = n.
Proof. unfold one_hot_row. rewrite length_map; apply length_seq. Qed.

Lemma one_hot_row_nth (i : Z) (n j : nat) :
  (0 <= i < Z.of_nat n)%Z ->
  nth j (one_hot_row i n) 0 = if Nat.eqb j (Z.to_nat i) then 1 else 0.
Proof.
  intros Hi. unfold one_hot_row.
  destruct (Nat.lt_ge_cases j n) as [Hj|Hj].
  - set (f := fun j0 : nat => if Z.eqb (Z.of_nat j0) i then 1 else 0).
    rewrite nth_indep with (d' := f 0%nat) by (rewrite length_map, length_seq; lia).
    rewrite map_nth, seq_nth by lia. unfold f; simpl.
    destruct (Z.eqb_spec (Z.of_nat j) i); destruct (Nat.eqb_spec j (Z.to_nat i)); auto; lia.
  - rewrite nth_overflow by (rewrite length_map, length_seq; lia).
    destruct (Nat.eqb_spec j (Z.to_nat i)); auto; lia.
Qed.

(** Summing a row weighted by a one-hot vector gives the selected entry. *)
Lemma sum_one_hot_aux (q : list R) (i : Z) (k : nat) :
  sum_list (map (fun p => fst p * snd p)
    (combine q (map (fun j => if Z.eqb (Z.of_nat j) i then 1 else 0) (seq k (length q)))))
  = if ((Z.of_nat k <=? i) && (i <? Z.of_nat (k + length q)))%Z
    then nth (Z.to_nat i - k) q 0 else 0.
Proof.
  revert k; induction q as [|x q IH]; intros k; simpl.
  - destruct ((Z.of_nat k <=? i) && (i <? Z.of_nat (k + 0)))%Z eqn:E; auto.
    apply andb_true_iff in E; destruct E as [E1 E2];
      apply Z.leb_le in E1; apply Z.ltb_lt in E2; lia.
  - rewrite IH. destruct (Z.eqb_spec (Z.of_nat k) i) as [Hk|Hk].
    + subst i. rewrite Nat2Z.id, Nat.sub_diag.
      replace ((Z.of_nat (S k) <=? Z.of_nat k))%Z with false by (symmetry; apply Z.leb_gt; lia).
      replace ((Z.of_nat k <=? Z.of_nat k) && (Z.of_nat k <? Z.of_nat (k + S (length q))))%Z
        with true by (symmetry; apply andb_true_iff; split; [apply Z.leb_le|apply Z.ltb_lt]; lia).
      simpl. ring.
    + destruct ((Z.of_nat (S k) <=? i) && (i <? Z.of_nat (S k + length q)))%Z eqn:E.
      * apply andb_true_iff in E; destruct E as [E1 E2];
          apply Z.leb_le in E1; apply Z.ltb_lt in E2.
        replace ((Z.of_nat k <=? i) && (i <? Z.of_nat (k + S (length q))))%Z with true
          by (symmetry; apply andb_true_iff; split; [apply Z.leb_le|apply Z.ltb_lt]; lia).
        replace (Z.to_nat i - k)%nat with (S (Z.to_nat i - S k)) by lia. simpl. ring.
      * replace ((Z.of_nat k <=? i) && (i <? Z.of_nat (k + S (length q))))%Z with false.
        { ring. }
        symmetry. apply andb_false_iff. apply andb_false_iff in E.
        destruct E as [E|E]; [apply Z.leb_gt in E|apply Z.ltb_ge in E].
        -- left. apply Z.leb_gt. lia.
        -- right. apply Z.ltb_ge. lia.
Qed.

Lemma sum_one_hot (q : list R) (i : Z) :
  (0 <= i < Z.of_nat (length q))%Z ->
  sum_list (map (fun p => fst p * snd p) (combine q (one_hot_row i (length q))))
  = nth (Z.to_nat i) q 0.
Proof.
  intros Hi. unfold one_hot_row. rewrite sum_one_hot_aux.
  replace ((Z.of_nat 0 <=? i) && (i <? Z.of_nat (0 + length q)))%Z with true
    by (symmetry; apply andb_true_iff; split; [apply Z.leb_le|apply Z.ltb_lt]; simpl; lia).
  rewrite Nat.sub_0_r; auto.
Qed.

(** The output of any forward pass is well formed and its rows have the
    size of its last dimension. *)
Lemma forward_ok_rows (net : NeuralNet) (s Q : tensor R) :
  forward net s = Ok Q ->
  wf Q /\ Forall (fun r => length r = last_dim (shape Q)) (rows Q).
Proof.
  unfold forward, bind.
  destruct (apply_linear (l1 net) s) as [o1|]; [|discriminate].
  destruct (apply_linear (l2 net) (relu o1)) as [o2|]; [|discriminate].
  destruct (apply_linear (l3 net) (relu o2)) as [o3|] eqn:E3; [|discriminate].
  destruct (raw_scores_rows _ _ _ E3) as [Hr [Hw Hl]].
  destruct (b_actor net); intros H; injection H as <-.
  - assert (Hs : Forall (fun r => length (softmax_row r) = last_dim (shape o3)) (rows o3)).
    { eapply Forall_impl; [|exact Hr]. intros r Hlen. rewrite softmax_row_length; congruence. }
    split; [apply wf_map_rows; auto|].
    unfold softmax_last. rewrite rows_map_rows by auto. unfold map_rows; simpl.
    rewrite last_dim_app. apply Forall_map. exact Hs.
  - split; auto. rewrite Hl; auto.
Qed.

Lemma concat_map_singleton {A B} (f : A -> B) (l : list A) :
  concat (map (fun x => [f x]) l) = map f l.
Proof. induction l; simpl; auto. rewrite IHl; auto. Qed.

Lemma squeeze_last_3 {A} (t : tensor A) (ns ne : nat) :
  shape t = [ns; ne; 1%nat] -> squeeze_last t = mkT [ns; ne] (data t).
Proof. intros Hs. unfold squeeze_last. rewrite Hs. reflexivity. Qed.

Lemma forallb_range (l : list Z) (n : nat) :
  Forall (fun i => 0 <= i < Z.of_nat n)%Z l ->
  forallb (fun i => (0 <=? i)%Z) l = true /\ forallb (fun i => (i <? Z.of_nat n)%Z) l = true.
Proof.
  intros H. rewrite Forall_forall in H. split; apply forallb_forall; intros i Hi;
    specialize (H i Hi); [apply Z.leb_le|apply Z.ltb_lt]; lia.
Qed.

(** The one-hot selection of the critic on consistent shapes. *)
Lemma q_sel_indices (num_outs ns ne : nat) (a : tensor Z) :
  shape a = [ns; ne; 1%nat] ->
  Forall (fun i => 0 <= i < Z.of_nat num_outs)%Z (data a) ->
  q_sel num_outs (Indices a)
  = Ok (mkT [ns; ne; num_outs] (concat (map (fun i => one_hot_row i num_outs) (data a)))).
Proof.
  intros Hs Hr. simpl. rewrite (squeeze_last_3 _ _ _ Hs). unfold one_hot; simpl.
  destruct (forallb_range _ _ Hr) as [-> ->]. reflexivity.
Qed.

Lemma one_hot_rows_lengths (num_outs : nat) (l : list Z) :
  Forall (fun r => length r = num_outs) (map (fun i => one_hot_row i num_outs) l).
Proof. apply Forall_map, Forall_forall; intros; apply one_hot_row_length. Qed.

Lemma rows_3 {A} (t : tensor A) (ns ne n : nat) :
  shape t = [ns; ne; n] -> rows t = chunks (ns * (ne * 1))%nat n (data t).
Proof. intros Hs. unfold rows. rewrite Hs. reflexivity. Qed.

(** In policy mode, the rows of the output are the softmax of the final
    layer's rows. *)
Lemma forward_policy_rows (net : NeuralNet) (s out : tensor R) :
  b_actor net = true -> (0 < lin_out (l3 net))%nat -> forward net s = Ok out ->
  Forall (fun r => Forall (Rle 0) r /\ sum_list r = 1) (rows out).
Proof.
  intros Hb Hn. unfold forward, bind.
  destruct (apply_linear (l1 net) s) as [o1|]; [|discriminate].
  destruct (apply_linear (l2 net) (relu o1)) as [o2|]; [|discriminate].
  destruct (apply_linear (l3 net) (relu o2)) as [o3|] eqn:E3; [|discriminate].
  rewrite Hb. intros H; injection H as <-.
  destruct (raw_scores_rows _ _ _ E3) as [Hr [_ Hl]].
  rewrite rows_softmax_last by (rewrite Hl; exact Hr).
  apply Forall_map. eapply Forall_impl; [|exact Hr].
  intros r Hlen. apply softmax_row_distribution.
  intros ->. simpl in Hlen. lia.
Qed.

(** ** The categorical distribution of the policy *)

Lemma forward_last_dim (net : NeuralNet) (s P : tensor R) :
  forward net s = Ok P -> last_dim (shape P) = lin_out (l3 net).
Proof.
  unfold forward, bind.
  destruct (apply_linear (l1 net) s) as [o1|]; [|discriminate].
  destruct (apply_linear (l2 net) (relu o1)) as [o2|]; [|discriminate].
  destruct (apply_linear (l3 net) (relu o2)) as [o3|] eqn:E3; [|discriminate].
  destruct (raw_scores_rows _ _ _ E3) as [_ [_ Hl]].
  destruct (b_actor net); intros H; injection H as <-; auto.
  unfold softmax_last, map_rows; simpl. rewrite last_dim_app; auto.
Qed.

Lemma tensor_eq {A} (t : tensor A) : t = mkT (shape t) (data t).
Proof. destruct t; reflexivity. Qed.

Lemma data_concat_rows {A} (t : tensor A) (ns ne n : nat) :
  shape t = [ns; ne; n] -> wf t -> concat (rows t) = data t.
Proof.
  intros Hs Hw. rewrite (rows_3 _ _ _ _ Hs). apply concat_chunks.
  unfold wf in Hw. rewrite Hw, Hs. simpl. lia.
Qed.

(** [Categorical] accepts the policy's output and keeps it unchanged: its
    rows already sum to 1. *)
Lemma categorical_of_policy (net : NeuralNet) (s P : tensor R) (ns ne n : nat) :
  b_actor net = true -> forward net s = Ok P -> shape P = [ns; ne; n] -> (0 < n)%nat ->
  Categorical P = Ok {| cat_probs := P |}.
Proof.
  intros Hb HP Hs Hn.
  assert (Hn3 : lin_out (l3 net) = n)
    by (rewrite <- (forward_last_dim _ _ _ HP), Hs; reflexivity).
  pose proof (forward_policy_rows net s P Hb ltac:(lia) HP) as Hd.
  destruct (forward_ok_rows _ _ _ HP) as [Hw Hl].
  assert (Hnorm : map (fun r => map (fun v => v / sum_list r) r) (rows P) = rows P).
  { rewrite <- map_id. apply map_ext_Forall. eapply Forall_impl; [|exact Hd].
    intros r [_ Hsum]. rewrite Hsum.
    transitivity (map (fun v => v) r); [apply map_ext; intros v; field | apply map_id]. }
  unfold Categorical. rewrite Hs.
  assert (Hp : map_rows (last_dim [ns; ne; n]) (fun r => map (fun v => v / sum_list r) r) P = P).
  { unfold map_rows. rewrite Hnorm, (data_concat_rows _ _ _ _ Hs Hw), Hs.
    rewrite (tensor_eq P) at 2. rewrite Hs. reflexivity. }
  rewrite Hp.
  replace (forallb simplex_row (rows P)) with true; [reflexivity|].
  symmetry. apply forallb_forall. intros r Hr. rewrite Forall_forall in Hd.
  destruct (Hd r Hr) as [Hpos Hsum]. unfold simplex_row. apply andb_true_iff. split.
  - apply forallb_forall. intros v Hv. rewrite Forall_forall in Hpos.
    unfold Rleb. destruct (Rle_dec 0 v) as [|Hc]; [reflexivity|exfalso; apply Hc; auto].
  - rewrite Hsum. unfold Rltb. destruct (Rlt_dec (Rabs (1 - 1)) (/ 1000000)) as [|Hc]; auto.
    exfalso. apply Hc. replace (1 - 1) with 0 by ring. rewrite Rabs_R0.
    apply Rinv_0_lt_compat. lra.
Qed.

Lemma nth_map_lt (f : R -> R) (i : nat) (r : list R) :
  (i < length r)%nat -> nth i (map f r) 0 = f (nth i r 0).
Proof.
  intros H. rewrite nth_indep with (d' := f 0) by (rewrite length_map; exact H).
  apply map_nth.
Qed.

Lemma Forall_combine_index (Rw : list (list R)) (I : list Z) (n : nat) :
  Forall (fun r => length r = n) Rw -> Forall (fun i => 0 <= i < Z.of_nat n)%Z I ->
  Forall (fun p => (Z.to_nat (snd p) < length (fst p))%nat) (combine Rw I).
Proof.
  intros H1 H2. rewrite Forall_forall in H1, H2 |- *. intros [r i] Hin; simpl.
  pose proof (H1 r (in_combine_l _ _ _ _ Hin)). pose proof (H2 i (in_combine_r _ _ _ _ Hin)).
  lia.
Qed.

Lemma chunks_map {A B} (f : A -> B) (k n : nat) (d : list A) :
  chunks k n (map f d) = map (map f) (chunks k n d).
Proof.
  revert d; induction k; intros d; simpl; auto.
  rewrite firstn_map, skipn_map, IHk; auto.
Qed.

Lemma broadcast_shapes_last1 (s : list nat) (n : nat) :
  broadcast_shapes (s ++ [1%nat]) (s ++ [n]) = Some (s ++ [n]).
Proof.
  unfold broadcast_shapes. rewrite !rev_app_distr. simpl.
  rewrite bcast_rev_refl.
  destruct (Nat.eqb_spec 1 n) as [<-|Hn]; simpl; rewrite ?rev_involutive; auto.
  destruct n as [|[|n]]; simpl; rewrite ?rev_involutive; auto; congruence.
Qed.

(** [dist.log_prob] on index tensors of the batch shape, in range. *)
Lemma log_prob_policy (P : tensor R) (a : tensor Z) (ns ne n : nat) :
  shape P = [ns; ne; n] -> wf P -> shape a = [ns; ne] -> length (data a) = (ns * (ne * 1))%nat ->
  Forall (fun i => 0 <= i < Z.of_nat n)%Z (data a) ->
  log_prob {| cat_probs := P |} a
  = Ok (mkT [ns; ne] (map (fun p => nth (Z.to_nat (fst p)) (snd p) 0)
                          (combine (data a) (map (map (fun v => ln (clamp_probs v))) (rows P))))).
Proof.
  intros Hs Hw Ha Hla Hr. unfold log_prob, validate_sample, cat_batch_shape, num_events.
  simpl cat_probs. rewrite Hs, Ha. simpl rev. rewrite bcast_rev_refl.
  replace (forallb _ (data a)) with true.
  2:{ symmetry. apply forallb_forall. intros i Hi. rewrite Forall_forall in Hr.
      specialize (Hr i Hi). unfold last_dim; simpl.
      apply andb_true_iff; split; [apply Z.leb_le|apply Z.leb_le]; lia. }
  simpl bind. unfold cat_logits, tmap. simpl shape. rewrite Hs.
  replace [ns; ne; n] with ([ns; ne] ++ [n]) by reflexivity.
  change [ns; ne; 1%nat] with ([ns; ne] ++ [1%nat]).
  rewrite broadcast_shapes_last1, batch_dims_app, last_dim_app.
  rewrite expand_id by (rewrite Hla; reflexivity).
  rewrite expand_id by (rewrite length_map; unfold wf in Hw; rewrite Hw, Hs; reflexivity).
  rewrite chunks_map. unfold rows. rewrite Hs. reflexivity.
Qed.

(** The actor's loss on consistent shapes, in the order the code computes
    it. *)
Lemma actor_objective_shapes (beta : R) (net : NeuralNet) (b : batch) (P : tensor R)
  (ns ne n : nat) (pg : list R) :
  b_actor net = true -> forward net (obs b) = Ok P -> shape P = [ns; ne; n] -> (0 < n)%nat ->
  pg_loss {| cat_probs := P |} (act b) (target b) = Ok (mkT [ns; ne; 1%nat] pg) ->
  length pg = (ns * (ne * 1))%nat ->
  actor_objective beta net b =
    Ok (mean (map (fun p => fst p - snd p)
                  (combine pg (map (fun r => beta * - sum_list (map (fun v => ln v * v) r))
                                   (rows P))))).
Proof.
  intros Hb HP Hs Hn Hpg Hl.
  unfold actor_objective. rewrite HP. simpl bind.
  rewrite (categorical_of_policy _ _ _ ns ne n Hb HP Hs Hn). simpl bind.
  rewrite Hpg. simpl bind.
  unfold entropy, cat_batch_shape, unsqueeze_last, tmap; simpl. rewrite Hs.
  rewrite bin_same; [simpl; rewrite map_map; reflexivity | reflexivity | exact Hl |].
  unfold wf; simpl. rewrite !length_map. unfold rows. rewrite Hs, chunks_length. auto.
Qed.

Lemma entropy_terms (r : list R) :
  - sum_list (map (fun v => ln v * v) r) = shannon_entropy r.
Proof.
  unfold shannon_entropy. f_equal. f_equal. apply map_ext. intros; ring.
Qed.

(** The per-example terms of the actor's loss with action indices. *)
Lemma actor_index_terms (beta : R) (X : list R) (Rw : list (list R)) (I : list Z) :
  length X = length Rw -> length Rw = length I ->
  Forall (fun p => (Z.to_nat (snd p) < length (fst p))%nat) (combine Rw I) ->
  map (fun p => fst p - snd p)
    (combine
       (map (fun p => fst p * snd p)
          (combine X (map Ropp (map (fun p => nth (Z.to_nat (fst p)) (snd p) 0)
                                    (combine I (map (map (fun v => ln (clamp_probs v))) Rw))))))
       (map (fun r => beta * - sum_list (map (fun v => ln v * v) r)) Rw))
  = map (fun p => fst p * - ln (clamp_probs (nth (Z.to_nat (snd (snd p))) (fst (snd p)) 0))
                  - beta * shannon_entropy (fst (snd p)))
        (combine X (combine Rw I)).
Proof.
  revert Rw I; induction X as [|x X IH]; intros [|r Rw] [|i I] H1 H2 HB;
    simpl in *; try discriminate; auto.
  inversion HB as [|? ? Hi HB']; subst.
  rewrite IH by (lia || exact HB'). f_equal. simpl in Hi |- *.
  rewrite (nth_map_lt (fun v => ln (clamp_probs v))) by exact Hi.
  rewrite entropy_terms. ring.
Qed.

(** The per-example terms of the actor's loss with distributions. *)
Lemma actor_dist_terms (beta : R) (X : list R) (Rw : list (list R)) :
  map (fun p => fst p - snd p)
    (combine (map Ropp X)
       (map (fun r => beta * - sum_list (map (fun v => ln v * v) r)) Rw))
  = map (fun p => - fst p - beta * shannon_entropy (snd p)) (combine X Rw).
Proof.
  revert Rw; induction X as [|x X IH]; intros [|r Rw]; simpl; auto.
  rewrite IH, entropy_terms. reflexivity.
Qed.

Lemma rows_3_length {A} (t : tensor A) (ns ne n : nat) :
  shape t = [ns; ne; n] -> length (rows t) = (ns * (ne * 1))%nat.
Proof. intros Hs. rewrite (rows_3 _ _ _ _ Hs). apply chunks_length. Qed.

(** ** Shapes through the forward pass *)

Lemma apply_linear_shape (l : Linear) (x : tensor R) (bd : list nat) :
  shape x = bd ++ [lin_in l] ->
  exists y, apply_linear l x = Ok y /\ shape y = bd ++ [lin_out l].
Proof.
  intros Hs. unfold apply_linear. rewrite Hs.
  destruct (bd ++ [lin_in l]) eqn:E; [destruct bd; discriminate|].
  rewrite <- E, last_dim_app, Nat.eqb_refl.
  eexists; split; [reflexivity|]. unfold map_rows; simpl. rewrite Hs, <- E, batch_dims_app. auto.
Qed.

(** A forward pass succeeds when the observation's last dimension is the
    network's input size and the layers are chained; the output keeps the
    batch dimensions. *)
Lemma forward_shape (net : NeuralNet) (s : tensor R) (bd : list nat) :
  shape s = bd ++ [lin_in (l1 net)] ->
  lin_in (l2 net) = lin_out (l1 net) -> lin_in (l3 net) = lin_out (l2 net) ->
  exists P, forward net s = Ok P /\ shape P = bd ++ [lin_out (l3 net)].
Proof.
  intros Hs H2 H3. unfold forward.
  destruct (apply_linear_shape _ _ _ Hs) as [o1 [E1 S1]]. rewrite E1. simpl bind.
  assert (R1 : shape (relu o1) = bd ++ [lin_in (l2 net)]) by (simpl; rewrite S1, H2; auto).
  destruct (apply_linear_shape _ _ _ R1) as [o2 [E2 S2]]. rewrite E2. simpl bind.
  assert (R2 : shape (relu o2) = bd ++ [lin_in (l3 net)]) by (simpl; rewrite S2, H3; auto).
  destruct (apply_linear_shape _ _ _ R2) as [o3 [E3 S3]]. rewrite E3. simpl bind.
  destruct (b_actor net); eexists; (split; [reflexivity|]); auto.
  unfold softmax_last, map_rows; simpl. rewrite S3, batch_dims_app, last_dim_app. auto.
Qed.

(** ** The bounded loss history *)

Lemma lastn_app_lastn {A} (n : nat) (L M : list A) :
  lastn n (lastn n L ++ M) = lastn n (L ++ M).
Proof.
  unfold lastn. set (k := (length L - n)%nat).
  replace (skipn (length (L ++ M) - n) (L ++ M))
    with (skipn (length (L ++ M) - n) (firstn k L ++ (skipn k L ++ M)))
    by (rewrite app_assoc, firstn_skipn; auto).
  rewrite (skipn_app _ (firstn k L)).
  assert (Hk : length (firstn k L) = k) by (rewrite length_firstn; unfold k; lia).
  rewrite (skipn_all2 (firstn k L)) by (rewrite Hk, length_app; unfold k; lia).
  rewrite Hk. simpl. f_equal. rewrite !length_app, length_skipn. unfold k. lia.
Qed.

Lemma length_lastn {A} (n : nat) (L : list A) : length (lastn n L) = Nat.min (length L) n.
Proof. unfold lastn. rewrite length_skipn. lia. Qed.

Lemma lastn_small {A} (n : nat) (L : list A) : (length L <= n)%nat -> lastn n L = L.
Proof. intros H. unfold lastn. replace (length L - n)%nat with 0%nat by lia. auto. Qed.

Lemma record_loss_lastn (h : list R) (l : R) :
  (length h <= 20)%nat -> record_loss h l = lastn 20 (h ++ [l]).
Proof.
  intros H. unfold record_loss, lastn. rewrite length_app. simpl.
  destruct (Nat.ltb_spec 20 (length h + 1)).
  - replace (length h + 1 - 20)%nat with 1%nat by lia.
    destruct (h ++ [l]); reflexivity.
  - replace (length h + 1 - 20)%nat with 0%nat by lia. reflexivity.
Qed.

Lemma record_loss_nonempty (h : list R) (l : R) : record_loss h l <> [].
Proof.
  unfold record_loss. rewrite length_app. simpl.
  destruct (Nat.ltb_spec 20 (length h + 1)).
  - destruct h as [|x h]; simpl in *; [lia|]. intros Hc.
    apply (f_equal (@length R)) in Hc. rewrite length_app in Hc. simpl in Hc. lia.
  - destruct h; discriminate.
Qed.

Section TrainerFacts.
Variables G O : Type.
Variable backward : NeuralNet -> batch -> G.
Variable adam_step : O -> NeuralNet -> G -> NeuralNet * O.
Variable objective : NeuralNet -> batch -> result R.

Lemma batch_update_error (st : trainer G O) (b : batch) (e : error) :
  objective (net st) b = Error e ->
  batch_update backward adam_step objective st b = (Error e, zero_grad st).
Proof. intros H. unfold batch_update. simpl. rewrite H. reflexivity. Qed.

Lemma batch_update_ok (st : trainer G O) (b : batch) (l : R) :
  objective (net st) b = Ok l ->
  let st' := snd (batch_update backward adam_step objective st b) in
  fst (batch_update backward adam_step objective st b) = Ok tt /\
  losses st' = record_loss (losses st) l /\ running_loss st' = Fin (mean (losses st')).
Proof.
  intros H. unfold batch_update. simpl. rewrite H.
  destruct (adam_step (opt_state st) (net st) (backward (net st) b)). simpl. auto.
Qed.

(** The history after a sequence of calls, from any state whose history
    holds at most 20 losses. *)
Lemma run_updates_history (st : trainer G O) (bs : list batch) :
  (length (losses st) <= 20)%nat ->
  let (st', rs) := run_updates backward adam_step objective st bs in
  losses st' = lastn 20 (losses st ++ ok_values rs) /\
  (ok_values rs = [] -> running_loss st' = running_loss st) /\
  (ok_values rs <> [] -> running_loss st' = Fin (mean (losses st'))).
Proof.
  revert st; induction bs as [|b bs IH]; intros st Hl; simpl.
  - rewrite app_nil_r, lastn_small by auto. split; auto. split; auto. congruence.
  - destruct (objective (net st) b) as [l|e] eqn:Eo.
    + destruct (batch_update_ok st b l Eo) as [_ [Hh Hr]].
      set (st1 := snd (batch_update backward adam_step objective st b)) in *.
      assert (Hl1 : (length (losses st1) <= 20)%nat)
        by (rewrite Hh, record_loss_lastn, length_lastn by auto; lia).
      specialize (IH st1 Hl1).
      destruct (run_updates backward adam_step objective st1 bs) as [st' rs] eqn:Er.
      simpl. destruct IH as [IH1 [IH2 IH3]].
      split; [rewrite IH1, Hh, record_loss_lastn, lastn_app_lastn, <- app_assoc by auto; reflexivity|].
      split; [discriminate|]. intros _.
      destruct (ok_values rs) as [|x xs] eqn:Ev.
      * rewrite (IH2 eq_refl), Hr, IH1, app_nil_r, lastn_small by auto. reflexivity.
      * apply IH3. discriminate.
    + rewrite (batch_update_error st b e Eo). simpl.
      specialize (IH (zero_grad st) Hl).
      destruct (run_updates backward adam_step objective (zero_grad st) bs) as [st' rs] eqn:Er.
      exact IH.
Qed.

End TrainerFacts.

(** The critic's selection, prediction and loss on consistent shapes with
    in-range indices. *)
Lemma critic_index_objective (num_outs : nat) (net : NeuralNet) (b : batch)
  (Q : tensor R) (a : tensor Z) (ns ne : nat) :
  forward net (obs b) = Ok Q -> shape Q = [ns; ne; num_outs] ->
  act b = Indices a -> shape a = [ns; ne; 1%nat] -> wf a ->
  shape (target b) = [ns; ne; 1%nat] -> wf (target b) ->
  Forall (fun i => 0 <= i < Z.of_nat num_outs)%Z (data a) ->
  let pred := map (fun p => nth (Z.to_nat (snd p)) (fst p) 0) (combine (rows Q) (data a)) in
  (exists sel, q_sel num_outs (act b) = Ok sel /\ shape sel = [ns; ne; num_outs] /\
     rows sel = map (fun i => one_hot_row i num_outs) (data a) /\
     Forall (fun i => length (one_hot_row i num_outs) = num_outs /\
        forall j, nth j (one_hot_row i num_outs) 0 =
                  if Nat.eqb j (Z.to_nat i) then 1 else 0) (data a))
  /\ critic_dot num_outs Q (act b) = Ok (mkT [ns; ne; 1%nat] pred)
  /\ critic_objective num_outs net b =
     Ok (mean (map (fun p => (fst p - snd p) ^ 2) (combine (data (target b)) pred))).
Proof.
  intros HQ HsQ Ha Hsa Hwa Hst Hwt Hr pred.
  destruct (forward_ok_rows _ _ _ HQ) as [HwQ HrQ].
  rewrite HsQ in HrQ. unfold last_dim in HrQ. simpl in HrQ.
  unfold wf in Hwa. rewrite Hsa in Hwa. simpl in Hwa.
  set (sel := mkT [ns; ne; num_outs] (concat (map (fun i => one_hot_row i num_outs) (data a)))).
  assert (Hsel : q_sel num_outs (act b) = Ok sel) by (rewrite Ha; apply q_sel_indices; auto).
  assert (Hlsel : length (concat (map (fun i => one_hot_row i num_outs) (data a)))
                  = (ns * (ne * (num_outs * 1)))%nat).
  { rewrite (length_concat_const num_outs) by apply one_hot_rows_lengths.
    rewrite length_map, Hwa. lia. }
  assert (HrowsQ : length (rows Q) = (ns * (ne * 1))%nat)
    by (rewrite (rows_3 _ _ _ _ HsQ), chunks_length; auto).
  assert (HdQ : data Q = concat (rows Q)).
  { rewrite (rows_3 _ _ _ _ HsQ). symmetry. apply concat_chunks.
    unfold wf in HwQ. rewrite HwQ, HsQ. simpl. lia. }
  assert (Hdot : critic_dot num_outs Q (act b) = Ok (mkT [ns; ne; 1%nat] pred)).
  { unfold critic_dot. rewrite Hsel. simpl bind.
    rewrite bin_same by (unfold wf; simpl; auto; rewrite Hlsel; auto).
    simpl bind. unfold sum_last_keep, map_rows, rows. simpl shape. rewrite HsQ.
    simpl. f_equal. f_equal.
    rewrite concat_map_singleton.
    rewrite HdQ.
    replace (ns * (ne * 1))%nat with (length (rows Q)) by auto.
    rewrite chunks_zip with (n := num_outs);
      [| rewrite length_map; lia | exact HrQ | apply one_hot_rows_lengths].
    rewrite map_map, map_combine_map_r. unfold pred.
    apply map_ext_in. intros [q i] Hin. simpl.
    apply in_combine_l in Hin as Hq. apply in_combine_r in Hin as Hi.
    rewrite Forall_forall in HrQ, Hr. specialize (HrQ q Hq). specialize (Hr i Hi).
    rewrite <- HrQ. apply sum_one_hot. lia. }
  split; [|split; [exact Hdot|]].
  - exists sel. split; [exact Hsel|]. split; [reflexivity|]. split.
    + unfold rows; simpl. replace (ns * (ne * 1))%nat with (length (map (fun i => one_hot_row i num_outs) (data a)))
        by (rewrite length_map; lia).
      apply chunks_concat, one_hot_rows_lengths.
    + apply Forall_forall. intros i Hi. rewrite Forall_forall in Hr.
      split; [apply one_hot_row_length|]. intros j. apply one_hot_row_nth; auto.
  - unfold critic_objective. rewrite HQ. simpl bind. rewrite Hdot. simpl bind.
    unfold mse_loss. rewrite bin_same; [reflexivity| rewrite Hst; reflexivity | exact Hwt |].
    unfold wf; simpl. unfold pred. rewrite length_map, length_combine. lia.
Qed.

(** The actor's loss on consistent shapes with in-range indices. *)
Lemma actor_index_objective (beta : R) (net : NeuralNet) (b : batch) (P : tensor R)
  (a : tensor Z) (ns ne n : nat) :
  b_actor net = true -> forward net (obs b) = Ok P -> shape P = [ns; ne; n] -> (0 < n)%nat ->
  act b = Indices a -> shape a = [ns; ne; 1%nat] -> wf a ->
  shape (target b) = [ns; ne; 1%nat] -> wf (target b) ->
  Forall (fun i => 0 <= i < Z.of_nat n)%Z (data a) ->
  actor_objective beta net b =
    Ok (mean (map (fun p => fst p * - ln (clamp_probs (nth (Z.to_nat (snd (snd p))) (fst (snd p)) 0))
                            - beta * shannon_entropy (fst (snd p)))
                  (combine (data (target b)) (combine (rows P) (data a))))).
Proof.
  intros Hb HP Hs Hn Ha Hsa Hwa Hst Hwt Hr.
  destruct (forward_ok_rows _ _ _ HP) as [HwP HrP]. rewrite Hs in HrP.
  pose proof (rows_3_length _ _ _ _ Hs) as HlP.
  unfold wf in Hwa, Hwt. rewrite Hsa in Hwa. rewrite Hst in Hwt. simpl in Hwa, Hwt.
  set (lp := map (fun p => nth (Z.to_nat (fst p)) (snd p) 0)
               (combine (data a) (map (map (fun v => ln (clamp_probs v))) (rows P)))).
  assert (Hlp : length lp = (ns * (ne * 1))%nat)
    by (unfold lp; rewrite length_map, length_combine, length_map; lia).
  set (pg := map (fun p => fst p * snd p) (combine (data (target b)) (map Ropp lp))).
  assert (Hpg : pg_loss {| cat_probs := P |} (act b) (target b) = Ok (mkT [ns; ne; 1%nat] pg)).
  { rewrite Ha. unfold pg_loss. rewrite (squeeze_last_3 _ _ _ Hsa).
    rewrite (log_prob_policy P (mkT [ns; ne] (data a)) ns ne n Hs HwP eq_refl)
      by (simpl; lia || auto).
    simpl bind. unfold unsqueeze_last, tmap; simpl.
    rewrite bin_same; [rewrite Hst; reflexivity | exact Hst | unfold wf; rewrite Hst; simpl; lia |].
    unfold wf; simpl. rewrite length_map. fold lp. rewrite Hlp. lia. }
  rewrite (actor_objective_shapes beta net b P ns ne n pg Hb HP Hs Hn Hpg)
    by (unfold pg; rewrite length_map, length_combine, length_map; lia).
  f_equal. f_equal. unfold pg, lp. apply actor_index_terms; try lia.
  apply (Forall_combine_index _ _ n); [exact HrP|exact Hr].
Qed.

(** ** Errors of the two updates *)

Lemma squeeze_last_data {A} (t : tensor A) : data (squeeze_last t) = data t.
Proof. unfold squeeze_last. destruct (shape t); auto. destruct (Nat.eqb _ _); auto. Qed.

Lemma one_hot_out_of_range (t : tensor Z) (n : nat) :
  Exists (fun i => ~ (0 <= i < Z.of_nat n))%Z (data t) -> one_hot t n = Error IndexOutOfRange.
Proof.
  intros H. unfold one_hot.
  destruct (forallb (fun a => (0 <=? a)%Z) (data t)) eqn:E1; [|reflexivity].
  destruct (forallb (fun a => (a <? Z.of_nat n)%Z) (data t)) eqn:E2; [|reflexivity].
  exfalso. rewrite forallb_forall in E1, E2. apply Exists_exists in H as [i [Hi Hn]].
  specialize (E1 i Hi). specialize (E2 i Hi). apply Z.leb_le in E1. apply Z.ltb_lt in E2. lia.
Qed.

Lemma support_out_of_range (l : list Z) (n : nat) :
  Exists (fun i => ~ (0 <= i < Z.of_nat n))%Z l ->
  forallb (fun a => (0 <=? a)%Z && (a <=? Z.of_nat n - 1)%Z) l = false.
Proof.
  intros H. apply not_true_iff_false. intros E. rewrite forallb_forall in E.
  apply Exists_exists in H as [i [Hi Hn]]. specialize (E i Hi).
  apply andb_prop in E as [E1 E2]. apply Z.leb_le in E1. apply Z.leb_le in E2. lia.
Qed.

(** The critic refuses an out-of-range index, whatever the shapes. *)
Lemma critic_index_out_of_range (num_outs : nat) (net : NeuralNet) (b : batch)
  (Q : tensor R) (a : tensor Z) :
  forward net (obs b) = Ok Q -> act b = Indices a ->
  Exists (fun i => ~ (0 <= i < Z.of_nat num_outs))%Z (data a) ->
  critic_objective num_outs net b = Error IndexOutOfRange.
Proof.
  intros HQ Ha Hr. unfold critic_objective. rewrite HQ. simpl bind.
  unfold critic_dot. rewrite Ha. simpl q_sel.
  rewrite one_hot_out_of_range by (rewrite squeeze_last_data; exact Hr). reflexivity.
Qed.

(** The actor refuses an out-of-range index given with the shape
    N_S x N_E x 1. *)
Lemma actor_index_out_of_range (beta : R) (net : NeuralNet) (b : batch) (P : tensor R)
  (a : tensor Z) (ns ne n : nat) :
  b_actor net = true -> forward net (obs b) = Ok P -> shape P = [ns; ne; n] -> (0 < n)%nat ->
  act b = Indices a -> shape a = [ns; ne; 1%nat] ->
  Exists (fun i => ~ (0 <= i < Z.of_nat n))%Z (data a) ->
  actor_objective beta net b = Error IndexOutOfRange.
Proof.
  intros Hb HP Hs Hn Ha Hsa Hr. unfold actor_objective.
  rewrite HP. simpl bind. rewrite (categorical_of_policy net (obs b) P ns ne n Hb HP Hs Hn).
  simpl bind. rewrite Ha. unfold pg_loss. rewrite (squeeze_last_3 _ _ _ Hsa).
  assert (Hv : validate_sample {| cat_probs := P |} (mkT [ns; ne] (data a))
               = Error IndexOutOfRange).
  { unfold validate_sample, cat_batch_shape, num_events. simpl cat_probs. rewrite Hs.
    unfold batch_dims, last_dim. cbn [rev app removelast last shape data]. rewrite bcast_rev_refl.
    rewrite support_out_of_range by exact Hr. reflexivity. }
  unfold log_prob. rewrite Hv. reflexivity.
Qed.

Lemma broadcast_shapes_middle_1 (ns ne k : nat) :
  broadcast_shapes [ns; ne; k] [ns; 1%nat; k] = Some [ns; ne; k].
Proof.
  unfold broadcast_shapes. simpl. rewrite !Nat.eqb_refl.
  destruct (Nat.eqb ne 1) eqn:E; [apply Nat.eqb_eq in E; subst|]; reflexivity.
Qed.

(** A batch dimension of size 1 in the critic's actions is broadcast
    against the observations' and the loss is computed. *)
Lemma critic_broadcast_accepted (num_outs : nat) (net : NeuralNet) (b : batch)
  (Q : tensor R) (a : tensor Z) (ns ne : nat) :
  forward net (obs b) = Ok Q -> shape Q = [ns; ne; num_outs] ->
  act b = Indices a -> shape a = [ns; 1%nat; 1%nat] ->
  Forall (fun i => 0 <= i < Z.of_nat num_outs)%Z (data a) ->
  shape (target b) = [ns; ne; 1%nat] ->
  is_ok (critic_objective num_outs net b) = true.
Proof.
  intros HQ HsQ Ha Hsa Hr Hst. unfold critic_objective. rewrite HQ. simpl bind.
  unfold critic_dot. rewrite Ha, (q_sel_indices num_outs ns 1 a Hsa Hr). simpl bind.
  unfold bin at 1. simpl shape. rewrite HsQ, broadcast_shapes_middle_1. simpl bind.
  unfold mse_loss, bin. rewrite Hst. simpl shape. rewrite broadcast_shapes_refl. reflexivity.
Qed.

(** The critic with action distributions of consistent shapes computes its
    loss. *)
Lemma critic_distribution_ok (num_outs : nat) (net : NeuralNet) (b : batch)
  (Q d : tensor R) (ns ne : nat) :
  forward net (obs b) = Ok Q -> shape Q = [ns; ne; num_outs] ->
  act b = Distributions d -> shape d = [ns; ne; num_outs] -> wf d ->
  shape (target b) = [ns; ne; 1%nat] ->
  is_ok (critic_objective num_outs net b) = true.
Proof.
  intros HQ HsQ Ha Hsd Hwd Hst. destruct (forward_ok_rows _ _ _ HQ) as [HwQ _].
  unfold critic_objective. rewrite HQ. simpl bind.
  unfold critic_dot. rewrite Ha. simpl q_sel. simpl bind.
  rewrite bin_same by (auto; congruence). simpl bind.
  unfold mse_loss, bin. rewrite Hst. simpl shape. rewrite HsQ. simpl.
  rewrite broadcast_shapes_refl. reflexivity.
Qed.

(** The actor with action distributions of any shape computes its loss. *)
Lemma actor_distribution_ok (beta : R) (net : NeuralNet) (b : batch) (P d : tensor R)
  (ns ne n : nat) :
  b_actor net = true -> forward net (obs b) = Ok P -> shape P = [ns; ne; n] -> (0 < n)%nat ->
  act b = Distributions d -> shape (target b) = [ns; ne; 1%nat] -> wf (target b) ->
  is_ok (actor_objective beta net b) = true.
Proof.
  intros Hb HP Hs Hn Ha Hst Hwt.
  unfold wf in Hwt. rewrite Hst in Hwt. simpl in Hwt.
  rewrite (actor_objective_shapes beta net b P ns ne n (map Ropp (data (target b))) Hb HP Hs Hn).
  - reflexivity.
  - rewrite Ha. simpl. unfold tmap. rewrite Hst. reflexivity.
  - rewrite length_map. lia.
Qed.

(** ** Clamped probabilities and networks with zero weights *)

Lemma finfo_eps_bounds : 0 < finfo_eps /\ finfo_eps < 1 - finfo_eps.
Proof. unfold finfo_eps. split; [apply Rinv_0_lt_compat; lra|]. lra. Qed.

Lemma clamp_probs_id (p : R) : finfo_eps <= p <= 1 - finfo_eps -> clamp_probs p = p.
Proof.
  pose proof finfo_eps_bounds. intros Hp.
  unfold clamp_probs, Rmin, Rmax. repeat destruct Rle_dec; lra.
Qed.

Lemma clamp_probs_low (p : R) : p <= finfo_eps -> clamp_probs p = finfo_eps.
Proof.
  pose proof finfo_eps_bounds. intros Hp.
  unfold clamp_probs, Rmin, Rmax. repeat destruct Rle_dec; lra.
Qed.

Lemma clamp_probs_range (p : R) : finfo_eps <= clamp_probs p <= 1 - finfo_eps.
Proof.
  pose proof finfo_eps_bounds.
  unfold clamp_probs, Rmin, Rmax. repeat destruct Rle_dec; lra.
Qed.

Lemma exp_INR_ge (n : nat) : 2 ^ n <= exp (INR n).
Proof.
  induction n as [|n IH]; [simpl; rewrite exp_0; lra|].
  rewrite S_INR, exp_plus. simpl pow.
  pose proof (exp_ineq1 1 ltac:(lra)). pose proof (pow_lt 2 n ltac:(lra)).
  replace (2 * 2 ^ n) with (2 ^ n * 2) by ring.
  apply Rmult_le_compat; lra.
Qed.

Lemma dot_zeros (l : list nat) (x : list R) : dot (map (fun _ => 0) l) x = 0.
Proof.
  unfold dot. revert x; induction l as [|c l IH]; intros [|v x]; simpl; auto.
  unfold sum_list in *. simpl. rewrite IH. ring.
Qed.

(** A linear layer whose weights are all zero outputs its biases. *)
Lemma lin_row_zero_weights (i o : nat) (w : nat -> nat -> R) (b0 : nat -> R) (x : list R) :
  (forall r c, w r c = 0) -> lin_row (nn_Linear i o w b0) x = map b0 (seq 0 o).
Proof.
  intros Hw. unfold lin_row, nn_Linear. cbn [lin_w lin_b].
  generalize (seq 0 o) as l. induction l as [|r l IH]; simpl; auto.
  rewrite IH. f_equal.
  replace (map (w r) (seq 0 i)) with (map (fun _ : nat => 0) (seq 0 i))
    by (apply map_ext; intros; symmetry; apply Hw).
  rewrite dot_zeros. ring.
Qed.

Lemma apply_linear_zero_weights (i o : nat) (w : nat -> nat -> R) (b0 : nat -> R)
  (x : tensor R) (bd : list nat) :
  (forall r c, w r c = 0) -> shape x = bd ++ [i] ->
  apply_linear (nn_Linear i o w b0) x
  = Ok (mkT (bd ++ [o]) (concat (map (fun _ => map b0 (seq 0 o)) (rows x)))).
Proof.
  intros Hw Hs. unfold apply_linear. rewrite Hs.
  destruct (bd ++ [i]) as [|k ks] eqn:E; [destruct bd; discriminate|].
  rewrite <- E in Hs |- *. rewrite last_dim_app. change (lin_in (nn_Linear i o w b0)) with i.
  rewrite Nat.eqb_refl. unfold map_rows. rewrite Hs, batch_dims_app.
  unfold lin_out, nn_Linear. cbn [lin_w lin_b].
  rewrite length_combine, !length_map, length_seq, Nat.min_id.
  f_equal. f_equal. f_equal. apply map_ext. intros r.
  apply (lin_row_zero_weights i o w b0 r Hw).
Qed.

(** ** When the updates fail *)

Lemma apply_linear_error (l : Linear) (x : tensor R) (e : error) :
  apply_linear l x = Error e -> e = ShapeMismatch.
Proof.
  unfold apply_linear. destruct (shape x); [congruence|].
  destruct (Nat.eqb _ _); congruence.
Qed.

Lemma forward_error (net : NeuralNet) (s : tensor R) (e : error) :
  forward net s = Error e -> e = ShapeMismatch.
Proof.
  unfold forward, bind.
  destruct (apply_linear (l1 net) s) as [o1|e1] eqn:E1;
    [|intros H; injection H as <-; exact (apply_linear_error _ _ _ E1)].
  destruct (apply_linear (l2 net) (relu o1)) as [o2|e2] eqn:E2;
    [|intros H; injection H as <-; exact (apply_linear_error _ _ _ E2)].
  destruct (apply_linear (l3 net) (relu o2)) as [o3|e3] eqn:E3;
    [|intros H; injection H as <-; exact (apply_linear_error _ _ _ E3)].
  destruct (b_actor net); discriminate.
Qed.


Lemma broadcast_shapes_snoc_1 (x y : list nat) (n : nat) :
  broadcast_shapes (x ++ [1%nat]) (y ++ [n]) =
  match broadcast_shapes x y with Some s => Some (s ++ [n]) | None => None end.
Proof.
  unfold broadcast_shapes. rewrite !rev_app_distr. simpl.
  destruct (bcast_rev (rev x) (rev y)) as [r|]; [|reflexivity].
  destruct n as [|[|n]]; reflexivity.
Qed.

Lemma result_shape_only {A} (r : result A) (ok : bool) :
  match r with Ok _ => ok = true | Error e => e = ShapeMismatch /\ ok = false end ->
  (forall e, r = Error e -> e = ShapeMismatch) /\ is_ok r = ok.
Proof. destruct r as [x|e]; [intros ->|intros [-> ->]]; (split; [congruence|reflexivity]). Qed.

Lemma support_in_range (l : list Z) (n : nat) :
  Forall (fun i => 0 <= i < Z.of_nat n)%Z l ->
  forallb (fun a => (0 <=? a)%Z && (a <=? Z.of_nat n - 1)%Z) l = true.
Proof.
  intros H. apply forallb_forall. intros i Hi. rewrite Forall_forall in H.
  specialize (H i Hi). apply andb_true_iff; split; apply Z.leb_le; lia.
Qed.

(** Observations the network refuses make both updates fail with a shape
    mismatch. *)
Lemma objectives_forward_error (num_outs : nat) (beta : R) (net : NeuralNet) (b : batch)
  (e : error) :
  forward net (obs b) = Error e ->
  critic_objective num_outs net b = Error ShapeMismatch /\
  actor_objective beta net b = Error ShapeMismatch.
Proof.
  intros E. pose proof (forward_error _ _ _ E) as ->.
  unfold critic_objective, actor_objective. rewrite E. split; reflexivity.
Qed.

(** Once the selection weights are computed, the critic fails only with a
    shape mismatch, and exactly when its shapes do not broadcast. *)
Lemma critic_objective_sel (num_outs : nat) (net : NeuralNet) (b : batch) (Q sel : tensor R) :
  forward net (obs b) = Ok Q -> q_sel num_outs (act b) = Ok sel ->
  (forall e, critic_objective num_outs net b = Error e -> e = ShapeMismatch) /\
  is_ok (critic_objective num_outs net b)
  = critic_shapes_broadcast (shape Q) (shape sel) (shape (target b)).
Proof.
  intros HQ Hs. unfold critic_objective. rewrite HQ. cbn [bind].
  unfold critic_dot. rewrite Hs. cbn [bind].
  unfold critic_shapes_broadcast, bin.
  destruct (broadcast_shapes (shape Q) (shape sel)) as [s0|]; cbn [bind];
    [|split; [congruence|reflexivity]].
  unfold mse_loss, bin, sum_last_keep, map_rows. cbn [shape].
  destruct (broadcast_shapes (shape (target b)) (batch_dims s0 ++ [1%nat])); cbn [bind];
    split; congruence || reflexivity.
Qed.

(** The one-hot selection of in-range indices. *)
Lemma q_sel_in_range (num_outs : nat) (a : tensor Z) :
  Forall (fun i => 0 <= i < Z.of_nat num_outs)%Z (data a) ->
  exists sel, q_sel num_outs (Indices a) = Ok sel /\
              shape sel = shape (squeeze_last a) ++ [num_outs].
Proof.
  intros Hr. unfold q_sel, one_hot. rewrite squeeze_last_data.
  destruct (forallb_range _ _ Hr) as [-> ->]. eexists. split; reflexivity.
Qed.

(** The actor with action indices, on a policy of shape N_S x N_E x n:
    actions whose batch dimensions do not broadcast against N_S x N_E are
    refused with a shape mismatch; otherwise an index outside [[0, n)] is
    refused as out of range; with in-range indices the update fails only
    with a shape mismatch, and exactly when its shapes do not broadcast. *)
Lemma actor_objective_indices (beta : R) (net : NeuralNet) (b : batch) (P : tensor R)
  (a : tensor Z) (ns ne n : nat) :
  b_actor net = true -> forward net (obs b) = Ok P -> shape P = [ns; ne; n] -> (0 < n)%nat ->
  act b = Indices a ->
  (broadcast_shapes (shape (squeeze_last a)) [ns; ne] = None ->
     actor_objective beta net b = Error ShapeMismatch) /\
  (broadcast_shapes (shape (squeeze_last a)) [ns; ne] <> None ->
     Exists (fun i => ~ (0 <= i < Z.of_nat n))%Z (data a) ->
     actor_objective beta net b = Error IndexOutOfRange) /\
  (Forall (fun i => 0 <= i < Z.of_nat n)%Z (data a) ->
     (forall e, actor_objective beta net b = Error e -> e = ShapeMismatch) /\
     is_ok (actor_objective beta net b)
     = actor_shapes_broadcast (shape (squeeze_last a)) [ns; ne] (shape (target b))).
Proof.
  intros Hb HP Hs Hn Ha. unfold actor_objective. rewrite HP. cbn [bind].
  rewrite (categorical_of_policy net (obs b) P ns ne n Hb HP Hs Hn). cbn [bind].
  rewrite Ha. unfold pg_loss, log_prob, validate_sample, cat_batch_shape, num_events.
  cbn [cat_probs]. rewrite Hs.
  change (batch_dims [ns; ne; n]) with [ns; ne]. change (last_dim [ns; ne; n]) with n.
  set (v := squeeze_last a).
  assert (Hv : data v = data a) by apply squeeze_last_data.
  assert (Hbc : broadcast_shapes (shape v) [ns; ne]
                = match bcast_rev (rev (shape v)) (rev [ns; ne]) with
                  | Some r => Some (rev r) | None => None end) by reflexivity.
  destruct (bcast_rev (rev (shape v)) (rev [ns; ne])) as [r|] eqn:Er.
  2:{ split; [reflexivity|]. split; [intros H; contradiction|].
      intros _. cbn [bind]. unfold actor_shapes_broadcast. rewrite Hbc.
      split; [congruence|reflexivity]. }
  split; [intros H; rewrite Hbc in H; discriminate|].
  split.
  { intros _ Hr. rewrite Hv, support_out_of_range by exact Hr. reflexivity. }
  intros Hr. apply result_shape_only.
  rewrite Hv, support_in_range by exact Hr. cbn [bind].
  unfold cat_logits, tmap. cbn [shape cat_probs]. rewrite Hs.
  change [ns; ne; n] with ([ns; ne] ++ [n]).
  rewrite broadcast_shapes_snoc_1, Hbc, batch_dims_app. cbn [bind].
  unfold actor_shapes_broadcast. rewrite Hbc.
  unfold bin at 1. unfold unsqueeze_last at 1. cbn [shape].
  destruct (broadcast_shapes (shape (target b)) (rev r ++ [1%nat])) as [s2|];
    cbn [bind]; [|split; reflexivity].
  unfold bin, entropy, cat_batch_shape, unsqueeze_last. cbn [shape cat_probs]. rewrite Hs.
  change (batch_dims [ns; ne; n]) with [ns; ne].
  destruct (broadcast_shapes s2 ([ns; ne] ++ [1%nat])); cbn [bind];
    [reflexivity|split; reflexivity].
Qed.

(** The actor with action distributions fails only with a shape mismatch,
    and exactly when the advantages do not broadcast against the entropy,
    of shape N_S x N_E x 1. *)
Lemma actor_objective_distributions (beta : R) (net : NeuralNet) (b : batch) (P d : tensor R)
  (ns ne n : nat) :
  b_actor net = true -> forward net (obs b) = Ok P -> shape P = [ns; ne; n] -> (0 < n)%nat ->
  act b = Distributions d ->
  (forall e, actor_objective beta net b = Error e -> e = ShapeMismatch) /\
  is_ok (actor_objective beta net b)
  = match broadcast_shapes (shape (target b)) [ns; ne; 1%nat] with
    | Some _ => true | None => false end.
Proof.
  intros Hb HP Hs Hn Ha. apply result_shape_only.
  unfold actor_objective. rewrite HP. cbn [bind].
  rewrite (categorical_of_policy net (obs b) P ns ne n Hb HP Hs Hn). cbn [bind].
  rewrite Ha. unfold pg_loss. cbn [bind].
  unfold bin, tmap, entropy, cat_batch_shape, unsqueeze_last. cbn [shape cat_probs]. rewrite Hs.
  change (batch_dims [ns; ne; n] ++ [1%nat]) with [ns; ne; 1%nat].
  destruct (broadcast_shapes (shape (target b)) [ns; ne; 1%nat]); cbn [bind];
    [reflexivity|split; reflexivity].
Qed.

(** * Claims *)

(** ** C1: the output transform of [NeuralNet.forward] *)

(** C1. The forward pass applies the softmax transform to the final layer's
    raw scores in policy mode and returns them unmodified in value mode; in
    policy mode every row of the output (along the last dimension, of
    positive size) is non-negative and sums to 1. *)
Theorem forward_policy_distribution (net : NeuralNet) (s : tensor R) :
  forward net s =
    (o1 <- apply_linear (l1 net) s ;;
     o2 <- apply_linear (l2 net) (relu o1) ;;
     o3 <- apply_linear (l3 net) (relu o2) ;;
     Ok (if b_actor net then softmax_last o3 else o3))
  /\ (b_actor net = true -> (0 < lin_out (l3 net))%nat ->
      forall out, forward net s = Ok out ->
      Forall (fun r => Forall (Rle 0) r /\ sum_list r = 1) (rows out)).
Proof.
  split; [unfold forward; destruct (b_actor net); reflexivity|].
  intros Hb Hn out. apply forward_policy_rows; auto.
Qed.

Lemma forward_policy_distribution_witness :
  exists out, forward (zero_net 2 3 true) (mkT [1; 1; 2]%nat [1; 2]) = Ok out /\
    Forall (fun r => Forall (Rle 0) r /\ sum_list r = 1) (rows out).
Proof.
  destruct (forward_shape (zero_net 2 3 true) (mkT [1; 1; 2]%nat [1; 2]) [1; 1]%nat
              eq_refl eq_refl eq_refl) as [out [E _]].
  exists out. split; [exact E|].
  apply (proj2 (forward_policy_distribution (zero_net 2 3 true) (mkT [1; 1; 2]%nat [1; 2])));
    [reflexivity | vm_compute; lia | exact E].
Defined.

(** ** C2: the critic's one-hot selection and loss *)

(** C2. For a critic update with integer action indices (shape N_S x N_E x 1,
    each in [[0, num_outputs)]), target of shape N_S x N_E x 1 and network
    output [Q] of shape N_S x N_E x num_outputs: the selection weights are
    the one-hot vectors of the indices (1 exactly at the index, 0
    elsewhere); the predicted scalar of each example is the entry of its row
    of [Q] at its index; the loss is the mean of the squared differences
    between targets and predictions. *)
Theorem critic_one_hot_selection (num_outs : nat) (net : NeuralNet) (b : batch)
  (Q : tensor R) (a : tensor Z) (ns ne : nat) :
  forward net (obs b) = Ok Q -> shape Q = [ns; ne; num_outs] ->
  act b = Indices a -> shape a = [ns; ne; 1%nat] -> wf a ->
  shape (target b) = [ns; ne; 1%nat] -> wf (target b) ->
  Forall (fun i => 0 <= i < Z.of_nat num_outs)%Z (data a) ->
  let pred := map (fun p => nth (Z.to_nat (snd p)) (fst p) 0) (combine (rows Q) (data a)) in
  (exists sel, q_sel num_outs (act b) = Ok sel /\ shape sel = [ns; ne; num_outs] /\
     rows sel = map (fun i => one_hot_row i num_outs) (data a) /\
     Forall (fun i => length (one_hot_row i num_outs) = num_outs /\
        forall j, nth j (one_hot_row i num_outs) 0 =
                  if Nat.eqb j (Z.to_nat i) then 1 else 0) (data a))
  /\ critic_dot num_outs Q (act b) = Ok (mkT [ns; ne; 1%nat] pred)
  /\ critic_objective num_outs net b =
     Ok (mean (map (fun p => (fst p - snd p) ^ 2) (combine (data (target b)) pred))).
Proof. exact (critic_index_objective num_outs net b Q a ns ne). Qed.

Lemma critic_one_hot_selection_witness :
  let b := {| obs := mkT [1; 1; 2]%nat [1; 2]; act := Indices (mkT [1; 1; 1]%nat [2%Z]);
              target := mkT [1; 1; 1]%nat [0] |} in
  exists Q, forward (zero_net 2 4 false) (obs b) = Ok Q /\
  (let pred := map (fun p => nth (Z.to_nat (snd p)) (fst p) 0) (combine (rows Q) [2%Z]) in
   critic_dot 4 Q (act b) = Ok (mkT [1; 1; 1]%nat pred) /\
   critic_objective 4 (zero_net 2 4 false) b =
     Ok (mean (map (fun p => (fst p - snd p) ^ 2) (combine (data (target b)) pred)))).
Proof.
  intros b.
  destruct (forward_shape (zero_net 2 4 false) (obs b) [1; 1]%nat eq_refl eq_refl eq_refl)
    as [Q [E HsQ]].
  exists Q. split; [exact E|].
  destruct (critic_one_hot_selection 4 (zero_net 2 4 false) b Q (mkT [1; 1; 1]%nat [2%Z]) 1 1)
    as [_ [H1 H2]].
  all: first [ exact (conj H1 H2) | exact E | exact HsQ | reflexivity
             | repeat constructor; lia ].
Defined.

(** ** C3: the actor's loss with action indices *)

(** C3, counterexample: a fresh actor whose weights are zero and whose last
    biases are [0] and [-24] gives action 1 the probability
    [p = exp(-24) / (1 + exp(-24))], below [eps = 2^-23].  With advantage 1
    and [beta = 0], torch's [log_prob] takes the logarithm of the clamped
    probability, and the loss is [- log eps] (about 15.94), not the
    negative log-probability [- log p] (about 24) the claim describes. *)
Lemma actor_rare_action_clamped :
  let net := NeuralNet_init 1 2 true
               {| dw1 := fun _ _ => 0; db1 := fun _ => 0; dw2 := fun _ _ => 0; db2 := fun _ => 0;
                  dw3 := fun _ _ => 0; db3 := fun j => if Nat.eqb j 1 then -24 else 0 |} in
  let a := mkT [1; 1; 1]%nat [1%Z] in
  let b := {| obs := mkT [1; 1; 1]%nat [0]; act := Indices a;
              target := mkT [1; 1; 1]%nat [1] |} in
  exists P, forward net (obs b) = Ok P /\
    actor_objective 0 net b = Ok (- ln finfo_eps) /\
    actor_objective 0 net b <> Ok (spec_actor_index_loss 0 P a (target b)).
Proof.
  intros net a b.
  assert (HF : forward net (obs b) = Ok (mkT [1; 1; 2]%nat (softmax_row [0; -24]))).
  { unfold forward, net, NeuralNet_init. cbn [l1 l2 l3 b_actor dw1 db1 dw2 db2 dw3 db3].
    rewrite (apply_linear_zero_weights 1 hidden_size _ _ (obs b) [1; 1]%nat
               (fun _ _ => eq_refl) eq_refl). cbn [bind].
    rewrite (apply_linear_zero_weights hidden_size hidden_size _ _ _ [1; 1]%nat
               (fun _ _ => eq_refl)) by reflexivity. cbn [bind].
    rewrite (apply_linear_zero_weights hidden_size 2 _ _ _ [1; 1]%nat
               (fun _ _ => eq_refl)) by reflexivity. cbn [bind].
    reflexivity. }
  exists (mkT [1; 1; 2]%nat (softmax_row [0; -24])). split; [exact HF|].
  pose proof (actor_index_objective 0 net b _ a 1 1 2 eq_refl HF eq_refl ltac:(lia) eq_refl
                eq_refl eq_refl eq_refl eq_refl ltac:(repeat constructor; lia)) as E.
  set (p1 := exp (-24) / (exp 0 + (exp (-24) + 0))).
  assert (Hp1 : 0 < p1 < finfo_eps).
  { pose proof (exp_pos (-24)). unfold p1. rewrite exp_0. split.
    - apply Rdiv_lt_0_compat; lra.
    - apply Rle_lt_trans with (exp (-24)).
      + apply Rle_trans with (exp (-24) / 1); unfold Rdiv; [|rewrite Rinv_1; lra].
        apply Rmult_le_compat_l; [lra|]. apply Rinv_le_contravar; lra.
      + assert (H24 : exp (-24) = / exp (INR 24))
          by (rewrite <- exp_Ropp; f_equal; simpl; lra).
        rewrite H24. unfold finfo_eps.
        apply Rinv_lt_contravar; [apply Rmult_lt_0_compat; [lra|apply exp_pos]|].
        pose proof (exp_INR_ge 24) as H2. simpl pow in H2. lra. }
  assert (Hrow : nth 1 (softmax_row [0; -24]) 0 = p1) by reflexivity.
  assert (Hcode : actor_objective 0 net b = Ok (- ln finfo_eps)).
  { rewrite E. f_equal.
    change (mean [1 * - ln (clamp_probs (nth 1 (softmax_row [0; -24]) 0))
                  - 0 * shannon_entropy (softmax_row [0; -24])] = - ln finfo_eps).
    rewrite Hrow, clamp_probs_low by lra.
    unfold mean, sum_list. simpl. field. }
  split; [exact Hcode|]. rewrite Hcode. intros Hs. injection Hs as Hs.
  change (- ln finfo_eps = mean [1 * - ln (nth 1 (softmax_row [0; -24]) 0)
                                 - 0 * shannon_entropy (softmax_row [0; -24])]) in Hs.
  rewrite Hrow in Hs. unfold mean, sum_list in Hs. simpl in Hs.
  assert (Hl : ln p1 < ln finfo_eps) by (apply ln_increasing; lra).
  assert (- ln finfo_eps = - ln p1) by (rewrite Hs; field). lra.
Qed.

(** C3 (amended). For an actor update with integer action indices (N_S x
    N_E x 1, in [[0, n)]), advantages of shape N_S x N_E x 1, and the
    policy's output [P] of shape N_S x N_E x n: the loss is the mean over
    the examples of [adv * (- log (clamp p[a])) - beta * H(p)], where [p]
    is the example's row of [P], [a] its action, [H] the Shannon entropy
    and [clamp] torch's [clamp_probs] into [[eps, 1 - eps]], [eps = 2^-23].
    When the probability of every taken action lies in [[eps, 1 - eps]],
    this is the loss [spec_actor_index_loss] with the negative
    log-probability itself. *)
Theorem actor_index_loss (beta : R) (net : NeuralNet) (b : batch) (P : tensor R)
  (a : tensor Z) (ns ne n : nat) :
  b_actor net = true -> forward net (obs b) = Ok P -> shape P = [ns; ne; n] -> (0 < n)%nat ->
  act b = Indices a -> shape a = [ns; ne; 1%nat] -> wf a ->
  shape (target b) = [ns; ne; 1%nat] -> wf (target b) ->
  Forall (fun i => 0 <= i < Z.of_nat n)%Z (data a) ->
  actor_objective beta net b =
    Ok (mean (map (fun p => fst p * - ln (clamp_probs (nth (Z.to_nat (snd (snd p))) (fst (snd p)) 0))
                            - beta * shannon_entropy (fst (snd p)))
                  (combine (data (target b)) (combine (rows P) (data a)))))
  /\ (Forall (fun p => finfo_eps <= nth (Z.to_nat (snd p)) (fst p) 0 <= 1 - finfo_eps)
              (combine (rows P) (data a)) ->
      actor_objective beta net b = Ok (spec_actor_index_loss beta P a (target b))).
Proof.
  intros Hb HP Hs Hn Ha Hsa Hwa Hst Hwt Hr.
  pose proof (actor_index_objective beta net b P a ns ne n Hb HP Hs Hn Ha Hsa Hwa Hst Hwt Hr) as E.
  split; [exact E|]. intros Hc. rewrite E. unfold spec_actor_index_loss.
  f_equal. f_equal. apply map_ext_in. intros [x [r i]] Hin. cbn [fst snd].
  rewrite Forall_forall in Hc. rewrite clamp_probs_id; [reflexivity|].
  apply (Hc (r, i)). exact (in_combine_r _ _ _ _ Hin).
Qed.

Lemma actor_index_loss_witness :
  let b := {| obs := mkT [1; 1; 2]%nat [1; 2]; act := Indices (mkT [1; 1; 1]%nat [1%Z]);
              target := mkT [1; 1; 1]%nat [1] |} in
  exists P, forward (zero_net 2 3 true) (obs b) = Ok P /\
  actor_objective 0 (zero_net 2 3 true) b =
    Ok (mean (map (fun p => fst p * - ln (clamp_probs (nth (Z.to_nat (snd (snd p))) (fst (snd p)) 0))
                            - 0 * shannon_entropy (fst (snd p)))
                  (combine (data (target b)) (combine (rows P) [1%Z])))).
Proof.
  intros b.
  destruct (forward_shape (zero_net 2 3 true) (obs b) [1; 1]%nat eq_refl eq_refl eq_refl)
    as [P [E HsP]].
  exists P. split; [exact E|].
  refine (proj1 (actor_index_loss 0 (zero_net 2 3 true) b P (mkT [1; 1; 1]%nat [1%Z]) 1 1 3
                   _ _ _ _ _ _ _ _ _ _)).
  all: first [ exact E | exact HsP | reflexivity | lia | repeat constructor; lia ].
Defined.

(** ** C8: the actor's loss with action distributions *)

(** C8. For an actor update with [action_distribution] true, advantages of
    shape N_S x N_E x 1 and the policy's output [P] of shape N_S x N_E x n:
    the loss does not depend on the actions passed, and it is the mean over
    the examples of [- adv - beta * H(p)], [p] the example's row of [P]. *)
Theorem actor_distribution_loss (beta : R) (net : NeuralNet) (b : batch) (P d : tensor R)
  (ns ne n : nat) :
  b_actor net = true -> forward net (obs b) = Ok P -> shape P = [ns; ne; n] -> (0 < n)%nat ->
  act b = Distributions d -> shape (target b) = [ns; ne; 1%nat] -> wf (target b) ->
  (forall d' : tensor R, actor_objective beta net b =
     actor_objective beta net {| obs := obs b; act := Distributions d'; target := target b |})
  /\ actor_objective beta net b =
     Ok (mean (map (fun p => - fst p - beta * shannon_entropy (snd p))
                   (combine (data (target b)) (rows P)))).
Proof.
  intros Hb HP Hs Hn Ha Hst Hwt. split.
  - intros d'. unfold actor_objective. rewrite Ha. reflexivity.
  - unfold wf in Hwt. rewrite Hst in Hwt. simpl in Hwt.
    rewrite (actor_objective_shapes beta net b P ns ne n (map Ropp (data (target b))) Hb HP Hs Hn).
    + f_equal. f_equal. apply actor_dist_terms.
    + rewrite Ha. simpl. unfold tmap. rewrite Hst. reflexivity.
    + rewrite length_map. lia.
Qed.

Lemma actor_distribution_loss_witness :
  let b := {| obs := mkT [1; 1; 2]%nat [1; 2]; act := Distributions (mkT [7%nat] []);
              target := mkT [1; 1; 1]%nat [1] |} in
  exists P, forward (zero_net 2 3 true) (obs b) = Ok P /\
  actor_objective 1 (zero_net 2 3 true) b =
    Ok (mean (map (fun p => - fst p - 1 * shannon_entropy (snd p))
                  (combine (data (target b)) (rows P)))).
Proof.
  intros b.
  destruct (forward_shape (zero_net 2 3 true) (obs b) [1; 1]%nat eq_refl eq_refl eq_refl)
    as [P [E HsP]].
  exists P. split; [exact E|].
  apply (actor_distribution_loss 1 (zero_net 2 3 true) b P (mkT [7%nat] []) 1 1 3).
  all: first [ exact E | exact HsP | reflexivity | lia ].
Defined.

(** ** C4: the loss history is a window of the last 20 losses *)

(** C4. After any sequence of [batch_update] calls on a fresh trainer
    (critic or actor: any objective), the history holds the losses of the
    last [min(n, 20)] successful calls, [n] their number, in call order, and
    once a call has succeeded the running diagnostic is the mean of the
    history. *)
Theorem loss_history_last_20 {G O : Type} (backward : NeuralNet -> batch -> G)
  (adam_step : O -> NeuralNet -> G -> NeuralNet * O)
  (objective : NeuralNet -> batch -> result R) (n0 : NeuralNet) (o0 : O) (bs : list batch) :
  let (st, rs) := run_updates backward adam_step objective (init_trainer n0 o0) bs in
  length (losses st) = Nat.min (length (ok_values rs)) 20 /\
  losses st = lastn 20 (ok_values rs) /\
  (ok_values rs <> [] -> running_loss st = Fin (mean (losses st))).
Proof.
  pose proof (run_updates_history G O backward adam_step objective (init_trainer n0 o0) bs)
    as H.
  destruct (run_updates backward adam_step objective (init_trainer n0 o0) bs) as [st rs].
  destruct (H (Nat.le_0_l _)) as [H1 [_ H3]]. simpl in H1.
  split; [rewrite H1; apply length_lastn|]. split; auto.
Qed.

Lemma loss_history_last_20_witness :
  let bs := repeat {| obs := mkT [1; 1; 2]%nat [1; 2]; act := Indices (mkT [1; 1; 1]%nat [0%Z]);
                      target := mkT [1; 1; 1]%nat [0] |} 25 in
  let (st, rs) := run_updates (fun _ _ => tt) (fun o n _ => (n, o)) (critic_objective 3)
                    (init_trainer (zero_net 2 3 false) tt) bs in
  length (losses st) = Nat.min (length (ok_values rs)) 20 /\
  losses st = lastn 20 (ok_values rs) /\
  (ok_values rs <> [] -> running_loss st = Fin (mean (losses st))).
Proof.
  intros bs.
  exact (loss_history_last_20 (fun _ _ => tt) (fun o n _ => (n, o)) (critic_objective 3)
           (zero_net 2 3 false) tt bs).
Defined.

(** ** C5: a failed update changes neither weights nor history *)

(** C5. A [batch_update] call that fails leaves the network's weights, the
    optimizer state, the loss history and the running diagnostic as they
    were: the only failing steps come before [optimizer.step()]. *)
Theorem failed_update_no_effect {G O : Type} (backward : NeuralNet -> batch -> G)
  (adam_step : O -> NeuralNet -> G -> NeuralNet * O)
  (objective : NeuralNet -> batch -> result R) (st st' : trainer G O) (b : batch) (e : error) :
  batch_update backward adam_step objective st b = (Error e, st') ->
  net st' = net st /\ opt_state st' = opt_state st /\
  losses st' = losses st /\ running_loss st' = running_loss st.
Proof.
  unfold batch_update. simpl.
  destruct (objective (net st) b) as [l|e'].
  - destruct (adam_step (opt_state st) (net st) (backward (net st) b)). discriminate.
  - intros H. injection H as _ <-. simpl. auto.
Qed.

Lemma failed_update_no_effect_witness :
  let st := init_trainer (zero_net 2 3 false) 0%nat in
  let b := {| obs := mkT [1; 1; 2]%nat [1; 2]; act := Indices (mkT [1; 1; 1]%nat [7%Z]);
              target := mkT [1; 1; 1]%nat [0] |} in
  critic_batch_update (fun _ _ => tt) (fun o n _ => (n, S o)) 3 st b
    = (Error IndexOutOfRange, zero_grad st) /\
  net (zero_grad st) = net st /\ opt_state (zero_grad st) = opt_state st /\
  losses (zero_grad st) = losses st /\ running_loss (zero_grad st) = running_loss st.
Proof.
  intros st b.
  assert (H : critic_batch_update (fun _ _ => tt) (fun o n _ => (n, S o)) 3 st b
              = (Error IndexOutOfRange, zero_grad st)) by reflexivity.
  split; [exact H|].
  exact (failed_update_no_effect (fun _ _ => tt) (fun o n _ => (n, S o)) (critic_objective 3)
           st (zero_grad st) b IndexOutOfRange H).
Defined.

(** ** C9: evaluation is a pure function of the weights *)

(** C9. [run_main] returns the forward pass of the current weights: two
    calls on the same input, with or without gradient tracking, or on two
    trainers with the same weights, give the same output, and a call
    returns the trainer state unchanged (weights, optimizer state, history
    and diagnostic included). *)
Theorem run_main_pure {G O : Type} (st st2 : trainer G O) (o : tensor R) (grad grad' : bool) :
  snd (run_main st o grad) = st /\
  fst (run_main st o grad) = forward (net st) o /\
  fst (run_main st o grad) = fst (run_main st o grad') /\
  fst (run_main (snd (run_main st o grad)) o grad') = fst (run_main st o grad) /\
  (net st2 = net st -> fst (run_main st2 o grad') = fst (run_main st o grad)).
Proof.
  unfold run_main. destruct grad, grad'; simpl; repeat split; auto;
    intros H; rewrite H; reflexivity.
Qed.

Lemma run_main_pure_witness :
  let st := @init_trainer unit unit (zero_net 2 3 false) tt in
  let st2 : trainer unit unit := {| net := zero_net 2 3 false; grads := Some tt; opt_state := tt;
                losses := [1; 2]; running_loss := Fin (3 / 2) |} in
  net st2 = net st /\ fst (run_main st2 (mkT [1; 1; 2]%nat [1; 2]) true)
                      = fst (run_main st (mkT [1; 1; 2]%nat [1; 2]) false).
Proof.
  intros st st2.
  assert (H : net st2 = net st) by reflexivity.
  split; [exact H|].
  exact (proj2 (proj2 (proj2 (proj2
    (run_main_pure st st2 (mkT [1; 1; 2]%nat [1; 2]) false true)))) H).
Defined.

(** ** C10: a fresh trainer's diagnostic is infinite until an update succeeds *)

(** C10. A freshly built trainer has an empty history and an infinite
    diagnostic; after any sequence of calls, if none succeeded both are
    still so, and once one has succeeded the history is non-empty and the
    diagnostic is its mean: the mean is never taken of an empty history. *)
Theorem fresh_trainer_diagnostic {G O : Type} (backward : NeuralNet -> batch -> G)
  (adam_step : O -> NeuralNet -> G -> NeuralNet * O)
  (objective : NeuralNet -> batch -> result R) (n0 : NeuralNet) (o0 : O) (bs : list batch) :
  losses (init_trainer (G:=G) n0 o0) = [] /\ running_loss (init_trainer (G:=G) n0 o0) = PosInf /\
  let (st, rs) := run_updates backward adam_step objective (init_trainer n0 o0) bs in
  (ok_values rs = [] -> losses st = [] /\ running_loss st = PosInf) /\
  (ok_values rs <> [] -> losses st <> [] /\ running_loss st = Fin (mean (losses st))).
Proof.
  split; [reflexivity|]. split; [reflexivity|].
  pose proof (run_updates_history G O backward adam_step objective (init_trainer n0 o0) bs)
    as H.
  destruct (run_updates backward adam_step objective (init_trainer n0 o0) bs) as [st rs].
  destruct (H (Nat.le_0_l _)) as [H1 [H2 H3]]. simpl in H1, H2.
  split.
  - intros E. split; [|exact (H2 E)]. rewrite H1, E. reflexivity.
  - intros E. split; [|exact (H3 E)].
    intros N. apply (f_equal (@length R)) in N. rewrite H1, length_lastn in N.
    simpl in N. destruct (ok_values rs); [congruence|]. simpl in N. lia.
Qed.

Lemma fresh_trainer_diagnostic_witness :
  let bs := [ {| obs := mkT [1; 1; 2]%nat [1; 2]; act := Indices (mkT [1; 1; 1]%nat [7%Z]);
                 target := mkT [1; 1; 1]%nat [0] |} ] in
  let (st, rs) := run_updates (fun _ _ => tt) (fun o n _ => (n, o)) (critic_objective 3)
                    (init_trainer (zero_net 2 3 false) tt) bs in
  (ok_values rs = [] -> losses st = [] /\ running_loss st = PosInf) /\
  (ok_values rs <> [] -> losses st <> [] /\ running_loss st = Fin (mean (losses st))).
Proof.
  intros bs.
  exact (proj2 (proj2 (fresh_trainer_diagnostic (fun _ _ => tt) (fun o n _ => (n, o))
           (critic_objective 3) (zero_net 2 3 false) tt bs))).
Defined.

(** ** C6: the errors of the two updates *)

(** C6, counterexample: observations with batch dimensions 1 x 2, one action
    index with batch dimensions 1 x 1, targets 1 x 2 x 1.  The batch
    dimensions are inconsistent, yet the critic update succeeds: the one-hot
    selection of shape 1 x 1 x 3 is broadcast against the output 1 x 2 x 3. *)
Lemma critic_inconsistent_batch_accepted :
  let b := {| obs := mkT [1; 2; 2]%nat [1; 2; 3; 4]; act := Indices (mkT [1; 1; 1]%nat [0%Z]);
              target := mkT [1; 2; 1]%nat [0; 0] |} in
  fst (critic_batch_update (fun _ _ => tt) (fun o n _ => (n, o)) 3
         (init_trainer (zero_net 2 3 false) tt) b) = Ok tt.
Proof.
  intros b.
  destruct (forward_shape (zero_net 2 3 false) (obs b) [1; 2]%nat eq_refl eq_refl eq_refl)
    as [Q [E HsQ]].
  pose proof (critic_broadcast_accepted 3 (zero_net 2 3 false) b Q (mkT [1; 1; 1]%nat [0%Z]) 1 2
                E HsQ eq_refl eq_refl ltac:(repeat constructor; lia) eq_refl) as H.
  destruct (critic_objective 3 (zero_net 2 3 false) b) as [l|e] eqn:El; [|discriminate].
  unfold critic_batch_update.
  exact (proj1 (batch_update_ok unit unit (fun _ _ => tt) (fun o n _ => (n, o))
                  (critic_objective 3) (init_trainer (zero_net 2 3 false) tt) b l El)).
Qed.

(** C6 (amended).  The errors of the two updates, the network's output
    having shape N_S x N_E x n (n > 0) for the actor:
    - observations the network refuses make both updates fail with a shape
      mismatch;
    - an action index outside [[0, num_outputs)] makes the critic fail with
      an out-of-range error;
    - with in-range indices, or with action distributions, the critic fails
      only with a shape mismatch, and exactly when its shapes do not
      broadcast at [Q * q_sel] or at the MSE against the targets;
    - with action indices, the actor fails with a shape mismatch when the
      actions' batch dimensions do not broadcast against N_S x N_E, else
      with an out-of-range error when an index lies outside [[0, n)]; with
      in-range indices it fails only with a shape mismatch, and exactly when
      its shapes do not broadcast at [adv * neglogp] or at
      [pg_loss - beta * entropy];
    - with action distributions, the actor fails only with a shape
      mismatch, and exactly when the advantages do not broadcast against
      N_S x N_E x 1;
    - in particular consistent shapes with in-range indices, or with action
      distributions, raise no error. *)
Theorem update_error_conditions :
  (forall num_outs beta net b e, forward net (obs b) = Error e ->
     critic_objective num_outs net b = Error ShapeMismatch /\
     actor_objective beta net b = Error ShapeMismatch) /\
  (forall num_outs net b Q a, forward net (obs b) = Ok Q -> act b = Indices a ->
     Exists (fun i => ~ (0 <= i < Z.of_nat num_outs))%Z (data a) ->
     critic_objective num_outs net b = Error IndexOutOfRange) /\
  (forall num_outs net b Q a, forward net (obs b) = Ok Q -> act b = Indices a ->
     Forall (fun i => 0 <= i < Z.of_nat num_outs)%Z (data a) ->
     (forall e, critic_objective num_outs net b = Error e -> e = ShapeMismatch) /\
     is_ok (critic_objective num_outs net b)
     = critic_shapes_broadcast (shape Q) (shape (squeeze_last a) ++ [num_outs])
         (shape (target b))) /\
  (forall num_outs net b Q d, forward net (obs b) = Ok Q -> act b = Distributions d ->
     (forall e, critic_objective num_outs net b = Error e -> e = ShapeMismatch) /\
     is_ok (critic_objective num_outs net b)
     = critic_shapes_broadcast (shape Q) (shape d) (shape (target b))) /\
  (forall beta net b P a ns ne n, b_actor net = true -> forward net (obs b) = Ok P ->
     shape P = [ns; ne; n] -> (0 < n)%nat -> act b = Indices a ->
     (broadcast_shapes (shape (squeeze_last a)) [ns; ne] = None ->
        actor_objective beta net b = Error ShapeMismatch) /\
     (broadcast_shapes (shape (squeeze_last a)) [ns; ne] <> None ->
        Exists (fun i => ~ (0 <= i < Z.of_nat n))%Z (data a) ->
        actor_objective beta net b = Error IndexOutOfRange) /\
     (Forall (fun i => 0 <= i < Z.of_nat n)%Z (data a) ->
        (forall e, actor_objective beta net b = Error e -> e = ShapeMismatch) /\
        is_ok (actor_objective beta net b)
        = actor_shapes_broadcast (shape (squeeze_last a)) [ns; ne] (shape (target b)))) /\
  (forall beta net b P d ns ne n, b_actor net = true -> forward net (obs b) = Ok P ->
     shape P = [ns; ne; n] -> (0 < n)%nat -> act b = Distributions d ->
     (forall e, actor_objective beta net b = Error e -> e = ShapeMismatch) /\
     is_ok (actor_objective beta net b)
     = match broadcast_shapes (shape (target b)) [ns; ne; 1%nat] with
       | Some _ => true | None => false end) /\
  (forall num_outs net b Q a ns ne, forward net (obs b) = Ok Q ->
     shape Q = [ns; ne; num_outs] -> act b = Indices a -> shape a = [ns; ne; 1%nat] -> wf a ->
     shape (target b) = [ns; ne; 1%nat] -> wf (target b) ->
     Forall (fun i => 0 <= i < Z.of_nat num_outs)%Z (data a) ->
     is_ok (critic_objective num_outs net b) = true) /\
  (forall num_outs net b Q d ns ne, forward net (obs b) = Ok Q ->
     shape Q = [ns; ne; num_outs] -> act b = Distributions d -> shape d = [ns; ne; num_outs] ->
     wf d -> shape (target b) = [ns; ne; 1%nat] ->
     is_ok (critic_objective num_outs net b) = true) /\
  (forall beta net b P a ns ne n, b_actor net = true -> forward net (obs b) = Ok P ->
     shape P = [ns; ne; n] -> (0 < n)%nat -> act b = Indices a -> shape a = [ns; ne; 1%nat] ->
     wf a -> shape (target b) = [ns; ne; 1%nat] -> wf (target b) ->
     Forall (fun i => 0 <= i < Z.of_nat n)%Z (data a) ->
     is_ok (actor_objective beta net b) = true) /\
  (forall beta net b P d ns ne n, b_actor net = true -> forward net (obs b) = Ok P ->
     shape P = [ns; ne; n] -> (0 < n)%nat -> act b = Distributions d ->
     shape (target b) = [ns; ne; 1%nat] -> wf (target b) ->
     is_ok (actor_objective beta net b) = true).
Proof.
  split; [exact objectives_forward_error|].
  split; [exact critic_index_out_of_range|].
  split.
  { intros num_outs net b Q a HQ Ha Hr.
    destruct (q_sel_in_range num_outs a Hr) as [sel [Hs Hsh]].
    rewrite <- Hsh. apply critic_objective_sel; [exact HQ|]. rewrite Ha. exact Hs. }
  split.
  { intros num_outs net b Q d HQ Ha. apply critic_objective_sel; [exact HQ|].
    rewrite Ha. reflexivity. }
  split; [exact actor_objective_indices|].
  split; [exact actor_objective_distributions|].
  split.
  { intros num_outs net b Q a ns ne HQ HsQ Ha Hsa Hwa Hst Hwt Hr.
    destruct (critic_index_objective num_outs net b Q a ns ne HQ HsQ Ha Hsa Hwa Hst Hwt Hr)
      as [_ [_ ->]]. reflexivity. }
  split; [exact critic_distribution_ok|].
  split.
  { intros beta net b P a ns ne n Hb HP Hs Hn Ha Hsa Hwa Hst Hwt Hr.
    rewrite (actor_index_objective beta net b P a ns ne n Hb HP Hs Hn Ha Hsa Hwa Hst Hwt Hr).
    reflexivity. }
  exact actor_distribution_ok.
Qed.

Lemma update_error_conditions_witness :
  let b1 := {| obs := mkT [1; 1; 2]%nat [1; 2]; act := Indices (mkT [1; 1; 1]%nat [7%Z]);
               target := mkT [1; 1; 1]%nat [0] |} in
  let b2 := {| obs := mkT [1; 2; 2]%nat [1; 2; 3; 4]; act := Indices (mkT [1; 1; 1]%nat [0%Z]);
               target := mkT [1; 2; 1]%nat [1; -1] |} in
  critic_objective 3 (zero_net 2 3 false) b1 = Error IndexOutOfRange /\
  is_ok (actor_objective 0 (zero_net 2 3 true) b2) = true.
Proof.
  intros b1 b2.
  destruct update_error_conditions as (_ & Hc & _ & _ & Ha & _).
  split.
  - destruct (forward_shape (zero_net 2 3 false) (obs b1) [1; 1]%nat eq_refl eq_refl eq_refl)
      as [Q [E _]].
    apply (Hc 3%nat (zero_net 2 3 false) b1 Q (mkT [1; 1; 1]%nat [7%Z]) E eq_refl).
    apply Exists_cons_hd. simpl. lia.
  - destruct (forward_shape (zero_net 2 3 true) (obs b2) [1; 2]%nat eq_refl eq_refl eq_refl)
      as [P [E HsP]].
    destruct (Ha 0 (zero_net 2 3 true) b2 P (mkT [1; 1; 1]%nat [0%Z]) 1%nat 2%nat 3%nat
                eq_refl E HsP ltac:(lia) eq_refl) as (_ & _ & H3).
    destruct (H3 ltac:(repeat constructor; lia)) as [_ ->]. reflexivity.
Defined.

(** ** C7: the shape of the sampled actions *)

(** C7. For an actor whose policy output on observations of shape
    N_S x N_E x F has shape N_S x N_E x n (n > 0), [sample_action] returns
    indices of shape N_S x N_E, the batch shape of the categorical
    distribution, with no trailing dimension of size 1. *)
Theorem sample_action_shape {G O : Type} (draw : list R -> Z) (st : trainer G O)
  (o P : tensor R) (grad : bool) (ns ne n : nat) :
  b_actor (net st) = true -> forward (net st) o = Ok P -> shape P = [ns; ne; n] -> (0 < n)%nat ->
  exists t, fst (sample_action draw st o grad) = Ok t /\
            shape t = [ns; ne] /\ shape t <> [ns; ne; 1%nat].
Proof.
  intros Hb HP Hs Hn. unfold sample_action. simpl. rewrite HP. simpl bind.
  rewrite (categorical_of_policy (net st) o P ns ne n Hb HP Hs Hn). simpl bind.
  eexists. split; [reflexivity|].
  unfold cat_sample, cat_batch_shape. simpl. rewrite Hs. split; [reflexivity|].
  intros H. apply (f_equal (@length nat)) in H. discriminate.
Qed.

Lemma sample_action_shape_witness :
  exists t, fst (sample_action (fun _ => 0%Z)
                   (init_trainer (G:=unit) (zero_net 2 3 true) tt)
                   (mkT [2; 3; 2]%nat [1; 2; 3; 4; 5; 6; 7; 8; 9; 10; 11; 12]) false) = Ok t /\
            shape t = [2; 3]%nat /\ shape t <> [2; 3; 1]%nat.
Proof.
  destruct (forward_shape (zero_net 2 3 true)
              (mkT [2; 3; 2]%nat [1; 2; 3; 4; 5; 6; 7; 8; 9; 10; 11; 12]) [2; 3]%nat
              eq_refl eq_refl eq_refl) as [P [E HsP]].
  exact (sample_action_shape (fun _ => 0%Z) (init_trainer (zero_net 2 3 true) tt)
           (mkT [2; 3; 2]%nat [1; 2; 3; 4; 5; 6; 7; 8; 9; 10; 11; 12]) P false 2 3 3
           eq_refl E HsP ltac:(lia)).
Defined.

(** * Further properties of the code *)

(** ** Construction and the forward pass *)

Lemma nn_Linear_in (i o : nat) (w : nat -> nat -> R) (b0 : nat -> R) :
  lin_in (nn_Linear i o w b0) = i.
Proof. reflexivity. Qed.

Lemma nn_Linear_out (i o : nat) (w : nat -> nat -> R) (b0 : nat -> R) :
  lin_out (nn_Linear i o w b0) = o.
Proof. unfold lin_out, nn_Linear; simpl. rewrite length_combine, !length_map, length_seq. lia. Qed.

Lemma init_forward_shape (state_dim action_dim : nat) (actor : bool) (d : init_draws)
  (s : tensor R) (bd : list nat) :
  shape s = bd ++ [state_dim] ->
  exists out, forward (NeuralNet_init state_dim action_dim actor d) s = Ok out /\
    shape out = bd ++ [action_dim] /\ wf out.
Proof.
  intros Hs.
  destruct (forward_shape (NeuralNet_init state_dim action_dim actor d) s bd) as [out [E S]].
  - exact Hs.
  - unfold NeuralNet_init; cbn [l1 l2]. rewrite nn_Linear_in, nn_Linear_out. reflexivity.
  - unfold NeuralNet_init; cbn [l2 l3]. rewrite nn_Linear_in, nn_Linear_out. reflexivity.
  - exists out. unfold NeuralNet_init in S; cbn [l3] in S. rewrite nn_Linear_out in S.
    split; [exact E|]. split; [exact S|]. exact (proj1 (forward_ok_rows _ _ _ E)).
Qed.

(** A fresh critic evaluates observations of shape [bd ++ [n_features]],
    for any leading dimensions [bd], to values of shape
    [bd ++ [critic_actions]]. *)
Theorem fresh_critic_eval_shape {G O : Type} (n_features critic_actions : nat)
  (d : init_draws) (o : O) (s : tensor R) (bd : list nat) (grad : bool) :
  shape s = bd ++ [n_features] ->
  exists Q, fst (run_main (CriticNetwork_init (G:=G) n_features critic_actions d o) s grad) = Ok Q
    /\ shape Q = bd ++ [critic_actions] /\ wf Q.
Proof.
  intros Hs. destruct (init_forward_shape n_features critic_actions false d s bd Hs)
    as [Q [E [S W]]].
  exists Q. unfold run_main, CriticNetwork_init, init_trainer.
  destruct grad; simpl; rewrite E; auto.
Qed.

Lemma fresh_critic_eval_shape_witness :
  exists Q, fst (run_main (CriticNetwork_init (G:=unit) 2 5 zero_draws tt)
                  (mkT [3; 2]%nat [1; 2; 3; 4; 5; 6]) false) = Ok Q
    /\ shape Q = [3; 5]%nat /\ wf Q.
Proof.
  exact (fresh_critic_eval_shape (G:=unit) 2 5 zero_draws tt (mkT [3; 2]%nat [1; 2; 3; 4; 5; 6])
           [3%nat] false eq_refl).
Defined.

(** A network built by [NeuralNet(state_dim, action_dim, b_actor)] fails on
    an input only with a shape mismatch, and it fails exactly when the input
    is 0-d or its last dimension is not [state_dim]. *)
Theorem forward_init_errors (state_dim action_dim : nat) (actor : bool) (d : init_draws)
  (s : tensor R) :
  (forall e, forward (NeuralNet_init state_dim action_dim actor d) s = Error e ->
             e = ShapeMismatch) /\
  (is_ok (forward (NeuralNet_init state_dim action_dim actor d) s) = true <->
   shape s <> [] /\ last_dim (shape s) = state_dim).
Proof.
  split; [intros e; apply forward_error|]. split.
  - unfold forward, bind.
    destruct (apply_linear (l1 (NeuralNet_init state_dim action_dim actor d)) s)
      as [o1|e1] eqn:E1; [|discriminate]. intros _.
    unfold apply_linear in E1. destruct (shape s) as [|k ks]; [discriminate|].
    split; [discriminate|].
    destruct (Nat.eqb_spec (last_dim (k :: ks)) (lin_in (l1 (NeuralNet_init state_dim action_dim actor d))))
      as [Hk|]; [|discriminate].
    rewrite Hk. reflexivity.
  - intros [Hne Hl].
    assert (Hs : shape s = batch_dims (shape s) ++ [state_dim]).
    { rewrite <- Hl. apply app_removelast_last. exact Hne. }
    destruct (init_forward_shape state_dim action_dim actor d s _ Hs) as [out [E _]].
    rewrite E. reflexivity.
Qed.

Lemma forward_init_errors_witness :
  is_ok (forward (NeuralNet_init 2 5 false zero_draws) (mkT [2; 3]%nat [1; 2; 3; 4; 5; 6])) = false
  /\ forward (NeuralNet_init 2 5 false zero_draws) (mkT [] [1]) = Error ShapeMismatch.
Proof.
  split.
  - destruct (is_ok _) eqn:E; [|reflexivity].
    apply (proj2 (forward_init_errors 2 5 false zero_draws (mkT [2; 3]%nat [1; 2; 3; 4; 5; 6])))
      in E.
    destruct E as [_ E]. discriminate E.
  - reflexivity.
Defined.

(** Rows of [relu]. *)
Lemma rows_relu (t : tensor R) : rows (relu t) = map (map (fun v => Rmax 0 v)) (rows t).
Proof. unfold relu, tmap, rows; simpl. apply chunks_map. Qed.

Lemma forward_rows (net : NeuralNet) (s out : tensor R) :
  forward net s = Ok out ->
  rows out =
  map (fun x =>
         let h := lin_row (l3 net) (map (fun v => Rmax 0 v)
                    (lin_row (l2 net) (map (fun v => Rmax 0 v) (lin_row (l1 net) x)))) in
         if b_actor net then softmax_row h else h) (rows s).
Proof.
  unfold forward, bind.
  destruct (apply_linear (l1 net) s) as [o1|] eqn:E1; [|discriminate].
  destruct (apply_linear (l2 net) (relu o1)) as [o2|] eqn:E2; [|discriminate].
  destruct (apply_linear (l3 net) (relu o2)) as [o3|] eqn:E3; [|discriminate].
  destruct (apply_linear_rows _ _ _ E1) as [R1 _].
  destruct (apply_linear_rows _ _ _ E2) as [R2 _].
  destruct (apply_linear_rows _ _ _ E3) as [R3 _].
  rewrite rows_relu in R2, R3. rewrite R1 in R2. rewrite R2 in R3.
  destruct (raw_scores_rows _ _ _ E3) as [Hr [_ Hl]].
  destruct (b_actor net); intros H; injection H as <-.
  - rewrite rows_softmax_last by (rewrite Hl; exact Hr).
    rewrite R3, !map_map. reflexivity.
  - rewrite R3, !map_map. reflexivity.
Qed.

(** The forward pass acts on each example on its own: each row of the
    output is the network applied to the corresponding row of the input,
    with no mixing across the leading dimensions. *)
Theorem forward_rowwise (net : NeuralNet) (s out : tensor R) :
  forward net s = Ok out ->
  rows out =
  map (fun x =>
         let h := lin_row (l3 net) (map (fun v => Rmax 0 v)
                    (lin_row (l2 net) (map (fun v => Rmax 0 v) (lin_row (l1 net) x)))) in
         if b_actor net then softmax_row h else h) (rows s).
Proof. exact (forward_rows net s out). Qed.

Lemma forward_rowwise_witness :
  exists out, forward (zero_net 2 3 true) (mkT [2; 2]%nat [1; 2; 3; 4]) = Ok out /\
  rows out =
  map (fun x =>
         let h := lin_row (l3 (zero_net 2 3 true)) (map (fun v => Rmax 0 v)
                    (lin_row (l2 (zero_net 2 3 true))
                       (map (fun v => Rmax 0 v) (lin_row (l1 (zero_net 2 3 true)) x)))) in
         if b_actor (zero_net 2 3 true) then softmax_row h else h)
      (rows (mkT [2; 2]%nat [1; 2; 3; 4])).
Proof.
  destruct (forward_shape (zero_net 2 3 true) (mkT [2; 2]%nat [1; 2; 3; 4]) [2%nat]
              eq_refl eq_refl eq_refl) as [out [E _]].
  exists out. split; [exact E|]. exact (forward_rowwise _ _ _ E).
Defined.

(** ** The policy's distribution *)

Lemma softmax_row_pos (r : list R) : r <> [] -> Forall (fun p => 0 < p) (softmax_row r).
Proof.
  intros H. pose proof (sum_exp_pos r H) as Hs. apply Forall_forall. intros x Hx.
  unfold softmax_row in Hx. apply in_map_iff in Hx. destruct Hx as [v [<- _]].
  apply Rdiv_lt_0_compat; [apply exp_pos | exact Hs].
Qed.

Lemma elem_le_sum (l : list R) (x : R) : Forall (Rle 0) l -> In x l -> x <= sum_list l.
Proof.
  induction 1 as [|y l Hy Hl IH]; intros Hx; [inversion Hx|]. simpl.
  assert (0 <= sum_list l).
  { clear IH Hx. induction Hl; simpl; [lra|]. lra. }
  destruct Hx as [<-|Hx]; [lra|]. specialize (IH Hx). lra.
Qed.

(** Every probability of a policy-mode output lies in (0, 1]. *)
Lemma forward_policy_pos (net : NeuralNet) (s out : tensor R) :
  b_actor net = true -> (0 < lin_out (l3 net))%nat -> forward net s = Ok out ->
  Forall (fun r => Forall (fun p => 0 < p <= 1) r /\ sum_list r = 1) (rows out).
Proof.
  intros Hb Hn E. pose proof (forward_policy_rows net s out Hb Hn E) as Hd.
  pose proof (forward_rows net s out E) as Hr. rewrite Hb in Hr.
  rewrite Forall_forall in Hd |- *. intros r Hin. destruct (Hd r Hin) as [H0 H1].
  split; [|exact H1]. apply Forall_forall. intros p Hp. split.
  - rewrite Hr in Hin. apply in_map_iff in Hin. destruct Hin as [x [Hx _]]. subst r.
    cbv zeta in Hp. eapply Forall_forall; [apply softmax_row_pos|exact Hp].
    intros E0. apply (f_equal (@length R)) in E0. rewrite lin_row_length in E0.
    simpl in E0. lia.
  - rewrite <- H1. apply elem_le_sum; auto.
Qed.

(** A fresh actor maps observations of shape [bd ++ [n_features]] to a
    policy of shape [bd ++ [actor_actions]] whose every row is a
    distribution over the [actor_actions] actions: entries in [[0, 1]]
    summing to 1. *)
Theorem fresh_actor_policy {G O : Type} (n_features actor_actions : nat) (d : init_draws)
  (o : O) (s : tensor R) (bd : list nat) (grad : bool) :
  shape s = bd ++ [n_features] -> (0 < actor_actions)%nat ->
  exists P, fst (action_distribution (ActorNetwork_init (G:=G) n_features actor_actions d o)
                   s grad) = Ok P
    /\ shape P = bd ++ [actor_actions]
    /\ Forall (fun r => length r = actor_actions /\ Forall (fun p => 0 <= p <= 1) r /\
                        sum_list r = 1) (rows P).
Proof.
  intros Hs Hn.
  destruct (init_forward_shape n_features actor_actions true d s bd Hs) as [P [E [S _]]].
  exists P. split.
  { unfold action_distribution, ActorNetwork_init, init_trainer. destruct grad; simpl; exact E. }
  split; [exact S|].
  assert (H3 : (0 < lin_out (l3 (NeuralNet_init n_features actor_actions true d)))%nat)
    by (unfold NeuralNet_init; cbn [l3]; rewrite nn_Linear_out; exact Hn).
  pose proof (forward_policy_pos (NeuralNet_init n_features actor_actions true d) s P eq_refl H3 E) as HP.
  destruct (forward_ok_rows _ _ _ E) as [_ HL]. rewrite S, last_dim_app in HL.
  rewrite Forall_forall in HP, HL |- *. intros r Hr.
  destruct (HP r Hr) as [Hp Hsum]. split; [auto|]. split; [|exact Hsum].
  eapply Forall_impl; [|exact Hp]. intros p Hp'; lra.
Qed.

Lemma fresh_actor_policy_witness :
  exists P, fst (action_distribution (ActorNetwork_init (G:=unit) 2 4 zero_draws tt)
                   (mkT [3; 2]%nat [1; 2; 3; 4; 5; 6]) true) = Ok P
    /\ shape P = [3; 4]%nat
    /\ Forall (fun r => length r = 4%nat /\ Forall (fun p => 0 <= p <= 1) r /\
                        sum_list r = 1) (rows P).
Proof.
  exact (fresh_actor_policy (G:=unit) 2 4 zero_draws tt (mkT [3; 2]%nat [1; 2; 3; 4; 5; 6])
           [3%nat] true eq_refl ltac:(lia)).
Defined.

(** [Categorical(probs=...)] on a policy-mode output of shape
    N_S x N_E x n (n > 0) passes its argument validation: it raises no
    error, and the distribution has batch shape N_S x N_E and n events. *)
Theorem policy_categorical_valid (net : NeuralNet) (s P : tensor R) (ns ne n : nat) :
  b_actor net = true -> forward net s = Ok P -> shape P = [ns; ne; n] -> (0 < n)%nat ->
  exists dist, Categorical P = Ok dist /\ cat_batch_shape dist = [ns; ne] /\
               num_events dist = n.
Proof.
  intros Hb E Hs Hn. exists {| cat_probs := P |}.
  split; [exact (categorical_of_policy net s P ns ne n Hb E Hs Hn)|].
  unfold cat_batch_shape, num_events. cbn [cat_probs]. rewrite Hs. split; reflexivity.
Qed.

Lemma policy_categorical_valid_witness :
  exists P, forward (zero_net 2 3 true) (mkT [1; 2; 2]%nat [1; 2; 3; 4]) = Ok P /\
  exists dist, Categorical P = Ok dist /\ cat_batch_shape dist = [1; 2]%nat /\
               num_events dist = 3%nat.
Proof.
  destruct (forward_shape (zero_net 2 3 true) (mkT [1; 2; 2]%nat [1; 2; 3; 4]) [1; 2]%nat
              eq_refl eq_refl eq_refl) as [P [E S]].
  exists P. split; [exact E|].
  exact (policy_categorical_valid (zero_net 2 3 true) (mkT [1; 2; 2]%nat [1; 2; 3; 4]) P 1 2 3 eq_refl E S ltac:(lia)).
Defined.

Lemma ln_le_0 (v : R) : 0 < v <= 1 -> ln v <= 0.
Proof.
  intros H. rewrite <- ln_1. destruct (Req_dec v 1) as [->|Hv]; [lra|].
  apply Rlt_le, ln_increasing; lra.
Qed.

Lemma sum_ln_mul_nonpos (r : list R) :
  Forall (fun p => 0 < p <= 1) r -> sum_list (map (fun v => ln v * v) r) <= 0.
Proof.
  induction 1 as [|v r Hv _ IH]; simpl; [lra|].
  pose proof (ln_le_0 v Hv).
  assert (ln v * v <= 0 * v) by (apply Rmult_le_compat_r; lra). lra.
Qed.

Lemma policy_rows_pos (net : NeuralNet) (s P : tensor R) (ns ne n : nat) :
  b_actor net = true -> forward net s = Ok P -> shape P = [ns; ne; n] -> (0 < n)%nat ->
  Forall (fun r => length r = n /\ Forall (fun p => 0 < p <= 1) r) (rows P).
Proof.
  intros Hb E Hs Hn.
  assert (H3 : lin_out (l3 net) = n)
    by (rewrite <- (forward_last_dim _ _ _ E), Hs; reflexivity).
  pose proof (forward_policy_pos net s P Hb ltac:(lia) E) as HP.
  destruct (forward_ok_rows _ _ _ E) as [_ HL]. rewrite Hs in HL.
  rewrite Forall_forall in HP, HL |- *. intros r Hr.
  split; [exact (HL r Hr)|exact (proj1 (HP r Hr))].
Qed.

(** The entropy [dist.entropy()] of the policy's distribution, one value
    per example, is never negative: with [beta >= 0] the entropy term only
    lowers the actor's loss. *)
Theorem policy_entropy_nonneg (net : NeuralNet) (s P : tensor R) (ns ne n : nat) :
  b_actor net = true -> forward net s = Ok P -> shape P = [ns; ne; n] -> (0 < n)%nat ->
  exists dist, Categorical P = Ok dist /\ shape (entropy dist) = [ns; ne] /\
    Forall (Rle 0) (data (entropy dist)).
Proof.
  intros Hb E Hs Hn. exists {| cat_probs := P |}.
  split; [exact (categorical_of_policy net s P ns ne n Hb E Hs Hn)|].
  split; [unfold entropy, cat_batch_shape; cbn [shape cat_probs]; rewrite Hs; reflexivity|].
  unfold entropy; cbn [data cat_probs]. apply Forall_map.
  eapply Forall_impl; [|exact (policy_rows_pos net s P ns ne n Hb E Hs Hn)].
  intros r [_ Hr]. pose proof (sum_ln_mul_nonpos r Hr). lra.
Qed.

Lemma policy_entropy_nonneg_witness :
  exists P, forward (zero_net 2 3 true) (mkT [1; 2; 2]%nat [1; 2; 3; 4]) = Ok P /\
  exists dist, Categorical P = Ok dist /\ shape (entropy dist) = [1; 2]%nat /\
    Forall (Rle 0) (data (entropy dist)).
Proof.
  destruct (forward_shape (zero_net 2 3 true) (mkT [1; 2; 2]%nat [1; 2; 3; 4]) [1; 2]%nat
              eq_refl eq_refl eq_refl) as [P [E S]].
  exists P. split; [exact E|].
  exact (policy_entropy_nonneg (zero_net 2 3 true) (mkT [1; 2; 2]%nat [1; 2; 3; 4]) P 1 2 3 eq_refl E S ltac:(lia)).
Defined.

(** [dist.log_prob(a)] of in-range actions of shape N_S x N_E under the
    policy's distribution is one value per example, never positive (the
    logarithm of a probability clamped into [[eps, 1 - eps]]): the actor's
    [neglogp] is non-negative, and [adv * neglogp] has the sign of the
    advantage. *)
Theorem policy_log_prob_nonpos (net : NeuralNet) (s P : tensor R) (a : tensor Z)
  (ns ne n : nat) :
  b_actor net = true -> forward net s = Ok P -> shape P = [ns; ne; n] -> (0 < n)%nat ->
  shape a = [ns; ne] -> wf a -> Forall (fun i => 0 <= i < Z.of_nat n)%Z (data a) ->
  exists dist lp, Categorical P = Ok dist /\ log_prob dist a = Ok lp /\
    shape lp = [ns; ne] /\ Forall (fun v => v <= 0) (data lp).
Proof.
  intros Hb E Hs Hn Ha Hwa Hr. exists {| cat_probs := P |}.
  destruct (forward_ok_rows _ _ _ E) as [HwP _].
  unfold wf in Hwa. rewrite Ha in Hwa. simpl in Hwa.
  eexists. split; [exact (categorical_of_policy net s P ns ne n Hb E Hs Hn)|].
  split; [apply (log_prob_policy P a ns ne n Hs HwP Ha ltac:(lia) Hr)|].
  split; [reflexivity|]. cbn [data].
  pose proof (policy_rows_pos net s P ns ne n Hb E Hs Hn) as HP.
  apply Forall_forall. intros v Hv. apply in_map_iff in Hv.
  destruct Hv as [[i lr] [<- Hin]]. cbn [fst snd].
  apply in_combine_l in Hin as Hi. apply in_combine_r in Hin as Hl.
  apply in_map_iff in Hl. destruct Hl as [r [<- Hrow]].
  rewrite Forall_forall in HP, Hr.
  destruct (HP r Hrow) as [Hlen _]. specialize (Hr i Hi).
  rewrite (nth_map_lt (fun v => ln (clamp_probs v))) by lia.
  pose proof finfo_eps_bounds. pose proof (clamp_probs_range (nth (Z.to_nat i) r 0)).
  apply ln_le_0. lra.
Qed.

Lemma policy_log_prob_nonpos_witness :
  exists P, forward (zero_net 2 3 true) (mkT [1; 2; 2]%nat [1; 2; 3; 4]) = Ok P /\
  exists dist lp, Categorical P = Ok dist /\ log_prob dist (mkT [1; 2]%nat [0%Z; 2%Z]) = Ok lp /\
    shape lp = [1; 2]%nat /\ Forall (fun v => v <= 0) (data lp).
Proof.
  destruct (forward_shape (zero_net 2 3 true) (mkT [1; 2; 2]%nat [1; 2; 3; 4]) [1; 2]%nat
              eq_refl eq_refl eq_refl) as [P [E S]].
  exists P. split; [exact E|].
  exact (policy_log_prob_nonpos (zero_net 2 3 true) (mkT [1; 2; 2]%nat [1; 2; 3; 4]) P (mkT [1; 2]%nat [0%Z; 2%Z]) 1 2 3 eq_refl E S ltac:(lia)
           eq_refl eq_refl ltac:(repeat constructor; lia)).
Defined.

(** ** The critic's distribution path *)

Lemma critic_distribution_terms (num_outs : nat) (net : NeuralNet) (b : batch)
  (Q d : tensor R) (ns ne : nat) :
  forward net (obs b) = Ok Q -> shape Q = [ns; ne; num_outs] ->
  act b = Distributions d -> shape d = [ns; ne; num_outs] -> wf d ->
  shape (target b) = [ns; ne; 1%nat] -> wf (target b) ->
  let pred := map (fun p => dot (fst p) (snd p)) (combine (rows Q) (rows d)) in
  critic_dot num_outs Q (act b) = Ok (mkT [ns; ne; 1%nat] pred) /\
  critic_objective num_outs net b =
    Ok (mean (map (fun p => (fst p - snd p) ^ 2) (combine (data (target b)) pred))).
Proof.
  intros HQ HsQ Ha Hsd Hwd Hst Hwt pred.
  destruct (forward_ok_rows _ _ _ HQ) as [HwQ HrQ].
  rewrite HsQ in HrQ. unfold last_dim in HrQ. simpl in HrQ.
  assert (HlQ : length (rows Q) = (ns * (ne * 1))%nat) by exact (rows_3_length _ _ _ _ HsQ).
  assert (Hld : length (rows d) = (ns * (ne * 1))%nat) by exact (rows_3_length _ _ _ _ Hsd).
  assert (Hrd : Forall (fun r => length r = num_outs) (rows d)).
  { rewrite (rows_3 _ _ _ _ Hsd). apply chunks_lengths. unfold wf in Hwd.
    rewrite Hwd, Hsd. simpl. lia. }
  assert (Hdot : critic_dot num_outs Q (act b) = Ok (mkT [ns; ne; 1%nat] pred)).
  { unfold critic_dot. rewrite Ha. simpl q_sel. simpl bind.
    rewrite bin_same by (auto; congruence). simpl bind.
    unfold sum_last_keep, map_rows. cbn [shape data]. rewrite HsQ.
    rewrite (rows_3 (mkT [ns; ne; num_outs] _) ns ne num_outs eq_refl). cbn [data].
    f_equal. f_equal. rewrite concat_map_singleton.
    rewrite <- (data_concat_rows Q ns ne num_outs HsQ HwQ).
    rewrite <- (data_concat_rows d ns ne num_outs Hsd Hwd).
    rewrite <- HlQ. rewrite chunks_zip with (n := num_outs) by (auto; congruence).
    rewrite map_map. unfold pred. apply map_ext. intros [x y]. reflexivity. }
  split; [exact Hdot|].
  unfold critic_objective. rewrite HQ. simpl bind. rewrite Hdot. simpl bind.
  unfold mse_loss. rewrite bin_same; [reflexivity | rewrite Hst; reflexivity | exact Hwt |].
  unfold wf; simpl. unfold pred. rewrite length_map, length_combine. lia.
Qed.

(** With [action_distribution=True], the critic's prediction for each
    example is the sum of its row of values weighted by its row of the
    given distribution, and the loss is the mean of the squared differences
    between targets and these predictions. *)
Theorem critic_distribution_prediction (num_outs : nat) (net : NeuralNet) (b : batch)
  (Q d : tensor R) (ns ne : nat) :
  forward net (obs b) = Ok Q -> shape Q = [ns; ne; num_outs] ->
  act b = Distributions d -> shape d = [ns; ne; num_outs] -> wf d ->
  shape (target b) = [ns; ne; 1%nat] -> wf (target b) ->
  let pred := map (fun p => dot (fst p) (snd p)) (combine (rows Q) (rows d)) in
  critic_dot num_outs Q (act b) = Ok (mkT [ns; ne; 1%nat] pred) /\
  critic_objective num_outs net b =
    Ok (mean (map (fun p => (fst p - snd p) ^ 2) (combine (data (target b)) pred))).
Proof. exact (critic_distribution_terms num_outs net b Q d ns ne). Qed.

Lemma critic_distribution_prediction_witness :
  let b := {| obs := mkT [1; 1; 2]%nat [1; 2]; act := Distributions (mkT [1; 1; 3]%nat [0.25; 0.25; 0.5]);
              target := mkT [1; 1; 1]%nat [1] |} in
  exists Q, forward (zero_net 2 3 false) (obs b) = Ok Q /\
  critic_objective 3 (zero_net 2 3 false) b =
    Ok (mean (map (fun p => (fst p - snd p) ^ 2)
                  (combine [1] (map (fun p => dot (fst p) (snd p))
                                    (combine (rows Q) [[0.25; 0.25; 0.5]]))))).
Proof.
  intros b.
  destruct (forward_shape (zero_net 2 3 false) (obs b) [1; 1]%nat eq_refl eq_refl eq_refl)
    as [Q [E HsQ]].
  exists Q. split; [exact E|].
  exact (proj2 (critic_distribution_prediction 3 (zero_net 2 3 false) b Q
                  (mkT [1; 1; 3]%nat [0.25; 0.25; 0.5]) 1 1 E HsQ eq_refl eq_refl eq_refl
                  eq_refl eq_refl)).
Defined.

(** Action indices of shape N_S x N_E x 1, all in [[0, num_outs)], give the
    critic the same loss as the distributions that are their one-hot
    vectors: the index path is the distribution path on one-hot rows. *)
Theorem critic_indices_as_distributions (num_outs : nat) (net : NeuralNet) (o tgt : tensor R)
  (a : tensor Z) (ns ne : nat) :
  shape a = [ns; ne; 1%nat] -> Forall (fun i => 0 <= i < Z.of_nat num_outs)%Z (data a) ->
  critic_objective num_outs net {| obs := o; act := Indices a; target := tgt |}
  = critic_objective num_outs net
      {| obs := o;
         act := Distributions (mkT [ns; ne; num_outs]
                  (concat (map (fun i => one_hot_row i num_outs) (data a))));
         target := tgt |}.
Proof.
  intros Hs Hr. unfold critic_objective, critic_dot. cbn [act obs target].
  rewrite (q_sel_indices num_outs ns ne a Hs Hr). reflexivity.
Qed.

Lemma critic_indices_as_distributions_witness :
  critic_objective 4 (zero_net 2 4 false)
    {| obs := mkT [1; 1; 2]%nat [1; 2]; act := Indices (mkT [1; 1; 1]%nat [2%Z]);
       target := mkT [1; 1; 1]%nat [1] |}
  = critic_objective 4 (zero_net 2 4 false)
      {| obs := mkT [1; 1; 2]%nat [1; 2];
         act := Distributions (mkT [1; 1; 4]%nat
                  (concat (map (fun i => one_hot_row i 4) [2%Z])));
         target := mkT [1; 1; 1]%nat [1] |}.
Proof.
  exact (critic_indices_as_distributions 4 (zero_net 2 4 false) (mkT [1; 1; 2]%nat [1; 2])
           (mkT [1; 1; 1]%nat [1]) (mkT [1; 1; 1]%nat [2%Z]) 1 1 eq_refl
           ltac:(repeat constructor; lia)).
Defined.

Lemma mean_nonneg (l : list R) : Forall (Rle 0) l -> (0 < length l)%nat -> 0 <= mean l.
Proof.
  intros H Hl. unfold mean, Rdiv. apply Rmult_le_pos.
  - clear Hl. induction H; simpl; lra.
  - left. apply Rinv_0_lt_compat, lt_0_INR. exact Hl.
Qed.

Lemma squares_mean_nonneg (X Y : list R) :
  (0 < length (combine X Y))%nat ->
  0 <= mean (map (fun p => (fst p - snd p) ^ 2) (combine X Y)).
Proof.
  intros H. apply mean_nonneg; [|rewrite length_map; exact H].
  apply Forall_forall. intros v Hv. apply in_map_iff in Hv. destruct Hv as [p [<- _]].
  apply pow2_ge_0.
Qed.

(** On a non-empty batch of consistent shapes (in-range indices or
    distributions), the critic's loss is non-negative. *)
Theorem critic_loss_nonneg (num_outs : nat) (net : NeuralNet) (b : batch) (Q : tensor R)
  (ns ne : nat) :
  forward net (obs b) = Ok Q -> shape Q = [ns; ne; num_outs] ->
  shape (target b) = [ns; ne; 1%nat] -> wf (target b) -> (0 < ns * ne)%nat ->
  (exists a, act b = Indices a /\ shape a = [ns; ne; 1%nat] /\ wf a /\
             Forall (fun i => 0 <= i < Z.of_nat num_outs)%Z (data a)) \/
  (exists d, act b = Distributions d /\ shape d = [ns; ne; num_outs] /\ wf d) ->
  exists l, critic_objective num_outs net b = Ok l /\ 0 <= l.
Proof.
  intros HQ HsQ Hst Hwt Hn Hact.
  assert (Hlt : length (data (target b)) = (ns * (ne * 1))%nat)
    by (unfold wf in Hwt; rewrite Hwt, Hst; reflexivity).
  destruct Hact as [[a [Ha [Hsa [Hwa Hr]]]] | [d [Ha [Hsd Hwd]]]].
  - destruct (critic_index_objective num_outs net b Q a ns ne HQ HsQ Ha Hsa Hwa Hst Hwt Hr)
      as [_ [_ ->]].
    eexists. split; [reflexivity|]. apply squares_mean_nonneg.
    rewrite length_combine, length_map, length_combine, (rows_3_length _ _ _ _ HsQ).
    unfold wf in Hwa. rewrite Hwa, Hsa. simpl. lia.
  - destruct (critic_distribution_terms num_outs net b Q d ns ne HQ HsQ Ha Hsd Hwd Hst Hwt)
      as [_ ->].
    eexists. split; [reflexivity|]. apply squares_mean_nonneg.
    rewrite length_combine, length_map, length_combine, (rows_3_length _ _ _ _ HsQ),
      (rows_3_length _ _ _ _ Hsd). lia.
Qed.

Lemma critic_loss_nonneg_witness :
  let b := {| obs := mkT [1; 1; 2]%nat [1; 2]; act := Indices (mkT [1; 1; 1]%nat [2%Z]);
              target := mkT [1; 1; 1]%nat [1] |} in
  exists l, critic_objective 4 (zero_net 2 4 false) b = Ok l /\ 0 <= l.
Proof.
  intros b.
  destruct (forward_shape (zero_net 2 4 false) (obs b) [1; 1]%nat eq_refl eq_refl eq_refl)
    as [Q [E HsQ]].
  apply (critic_loss_nonneg 4 (zero_net 2 4 false) b Q 1 1 E HsQ eq_refl eq_refl ltac:(lia)).
  left. exists (mkT [1; 1; 1]%nat [2%Z]).
  split; [reflexivity|]. split; [reflexivity|]. split; [reflexivity|].
  repeat constructor; lia.
Defined.

(** ** Sampling, then updating *)

(** Indices drawn by [sample_action], each row's draw being an index of
    that row (as [torch.multinomial]'s are), have shape N_S x N_E; given
    back to the actor's [batch_update] after [unsqueeze(-1)], with
    advantages of shape N_S x N_E x 1, the update succeeds. *)
Theorem sample_then_update {G O : Type} (backward : NeuralNet -> batch -> G)
  (adam_step : O -> NeuralNet -> G -> NeuralNet * O) (draw : list R -> Z)
  (st : trainer G O) (o P adv : tensor R) (grad : bool) (beta : R) (ns ne n : nat) :
  b_actor (net st) = true -> forward (net st) o = Ok P -> shape P = [ns; ne; n] -> (0 < n)%nat ->
  (forall r : list R, length r = n -> (0 <= draw r < Z.of_nat n)%Z) ->
  shape adv = [ns; ne; 1%nat] -> wf adv ->
  exists t, fst (sample_action draw st o grad) = Ok t /\ shape t = [ns; ne] /\
    fst (actor_batch_update backward adam_step beta st
           {| obs := o; act := Indices (unsqueeze_last t); target := adv |}) = Ok tt.
Proof.
  intros Hb HP Hs Hn Hdraw Hsa Hwa.
  exists (mkT [ns; ne] (map draw (rows P))).
  split.
  { unfold sample_action. cbn [fst]. rewrite HP. simpl bind.
    rewrite (categorical_of_policy (net st) o P ns ne n Hb HP Hs Hn). simpl bind.
    unfold cat_sample, cat_batch_shape. cbn [cat_probs]. rewrite Hs. reflexivity. }
  split; [reflexivity|].
  set (b := {| obs := o; act := Indices (unsqueeze_last (mkT [ns; ne] (map draw (rows P))));
               target := adv |}).
  assert (Hr : Forall (fun i => 0 <= i < Z.of_nat n)%Z (map draw (rows P))).
  { apply Forall_map. eapply Forall_impl; [|exact (policy_rows_pos (net st) o P ns ne n Hb HP Hs Hn)].
    intros r [Hl _]. exact (Hdraw r Hl). }
  pose proof (actor_index_objective beta (net st) b P
                (unsqueeze_last (mkT [ns; ne] (map draw (rows P)))) ns ne n Hb HP Hs Hn eq_refl
                eq_refl) as H.
  unfold wf in H. cbn [shape data unsqueeze_last] in H.
  rewrite length_map, (rows_3_length _ _ _ _ Hs) in H.
  specialize (H ltac:(simpl; lia) Hsa Hwa Hr).
  unfold actor_batch_update.
  exact (proj1 (batch_update_ok G O backward adam_step (actor_objective beta) st b _ H)).
Qed.

Lemma sample_then_update_witness :
  exists t, fst (sample_action (fun _ => 1%Z) (init_trainer (G:=unit) (zero_net 2 3 true) tt)
                   (mkT [1; 2; 2]%nat [1; 2; 3; 4]) false) = Ok t /\ shape t = [1; 2]%nat /\
    fst (actor_batch_update (fun _ _ => tt) (fun o n _ => (n, o)) (1 / 100)
           (init_trainer (zero_net 2 3 true) tt)
           {| obs := mkT [1; 2; 2]%nat [1; 2; 3; 4]; act := Indices (unsqueeze_last t);
              target := mkT [1; 2; 1]%nat [1; -1] |}) = Ok tt.
Proof.
  destruct (forward_shape (zero_net 2 3 true) (mkT [1; 2; 2]%nat [1; 2; 3; 4]) [1; 2]%nat
              eq_refl eq_refl eq_refl) as [P [E S]].
  exact (sample_then_update (fun _ _ => tt) (fun o n _ => (n, o)) (fun _ => 1%Z)
           (init_trainer (zero_net 2 3 true) tt) (mkT [1; 2; 2]%nat [1; 2; 3; 4]) P
           (mkT [1; 2; 1]%nat [1; -1]) false (1 / 100) 1 2 3 eq_refl E S ltac:(lia)
           (fun r _ => ltac:(lia)) eq_refl eq_refl).
Defined.
